(** * news-summary: the gatekeeper pipeline, the batch driver and the optimizer

    A shallow embedding of [model.py], [main.py], [optimize.py] and
    [utils.py].

    - Python [str] values are lists of Unicode code points ([pystr]);
      [str.strip], the [in] operator on strings and f-string formatting are
      written out on that representation.
    - Python dicts with string keys are [gmap string _]; [d.get(k)],
      [d.get(k, default)], [d[k] = v] and [d.update(e)] are lookup, lookup
      with default, insert and left-biased union.
    - The two language-model calls ([self.classifier], [self.extractor]) are
      oracles over an abstract model state; every call is recorded in a call
      log, so that "the extractor is never invoked" is a statement about the
      log.
    - Exceptions are values of [Exn]; code that can raise returns [Exn + A].
    - [BootstrapFewShot.compile] belongs to the dspy library, not to the
      repository: [main] of [optimize.py] takes it as an argument, and the
      statements about what it selects are made against a model of it that
      follows the specification. *)

From stdpp Require Import base option list strings gmap fin_maps.
From Stdlib Require Import NArith.

Local Open Scope N_scope.

(** ** Python strings *)

Module PyStr.

(** A Python [str]: a sequence of Unicode code points. *)
Abbreviation pystr := (list N).

(** [str.isspace] on one code point; this is the set [str.strip()] removes
    when it is called without an argument. *)
Definition is_space (c : N) : bool :=
  ((0x9 <=? c) && (c <=? 0xD))
  || ((0x1C <=? c) && (c <=? 0x20))
  || (c =? 0x85) || (c =? 0xA0) || (c =? 0x1680)
  || ((0x2000 <=? c) && (c <=? 0x200A))
  || (c =? 0x2028) || (c =? 0x2029) || (c =? 0x202F) || (c =? 0x205F)
  || (c =? 0x3000).

(** [s.lstrip()] *)
Fixpoint lstrip (s : pystr) : pystr :=
  match s with
  | [] => []
  | c :: s' => if is_space c then lstrip s' else s
  end.

(** [s.rstrip()] *)
Definition rstrip (s : pystr) : pystr := reverse (lstrip (reverse s)).

(** [s.strip()] *)
Definition strip (s : pystr) : pystr := rstrip (lstrip s).

(** [s.startswith(p)] *)
Fixpoint starts_with (p s : pystr) : bool :=
  match p, s with
  | [], _ => true
  | _ :: _, [] => false
  | a :: p', b :: s' => (a =? b) && starts_with p' s'
  end.

(** [p in s] for two strings: [p] occurs in [s] as a contiguous run. *)
Fixpoint contains (s p : pystr) : bool :=
  starts_with p s ||
  match s with
  | [] => false
  | _ :: s' => contains s' p
  end.

(** Truthiness of an [Optional[str]]: [None] and [""] are falsy. *)
Definition truthy (v : option pystr) : bool :=
  match v with
  | Some (_ :: _) => true
  | _ => false
  end.

(** [f"{v}"] for an [Optional[str]]. *)
Definition fmt (v : option pystr) : pystr :=
  match v with
  | Some s => s
  | None => [0x4E; 0x6F; 0x6E; 0x65]
  end.

(** Source literals are written as UTF-8 text and decoded to code points. *)
Fixpoint utf8_decode (bs : list N) : pystr :=
  match bs with
  | [] => []
  | b0 :: r0 =>
      if b0 <? 0x80 then b0 :: utf8_decode r0
      else if b0 <? 0xE0 then
        match r0 with
        | b1 :: r1 => ((b0 - 0xC0) * 0x40 + (b1 - 0x80)) :: utf8_decode r1
        | _ => []
        end
      else if b0 <? 0xF0 then
        match r0 with
        | b1 :: b2 :: r2 =>
            ((b0 - 0xE0) * 0x1000 + (b1 - 0x80) * 0x40 + (b2 - 0x80))
              :: utf8_decode r2
        | _ => []
        end
      else
        match r0 with
        | b1 :: b2 :: b3 :: r3 =>
            ((b0 - 0xF0) * 0x40000 + (b1 - 0x80) * 0x1000
             + (b2 - 0x80) * 0x40 + (b3 - 0x80)) :: utf8_decode r3
        | _ => []
        end
  end.

Definition py (lit : string) : pystr :=
  utf8_decode (map Ascii.N_of_ascii (String.list_ascii_of_string lit)).

(** The specification side of [contains]: [p] is an infix of [s]. *)
Definition infix_of (p s : pystr) : Prop := ∃ a b, s = a ++ p ++ b.

(** A string is trimmed when neither end is a whitespace character. *)
Definition trimmed (s : pystr) : Prop :=
  (∀ c, head s = Some c → is_space c = false)
  ∧ (∀ c, last s = Some c → is_space c = false).

End PyStr.

Export PyStr.

(** Exceptions the modelled code can raise.  [ConfigurationError] is the
    specification's name for the failure of the library's [compile] on an
    empty example set. *)
Inductive Exn : Type :=
  | FileNotFoundError
  | UnicodeDecodeError
  | JSONDecodeError
  | TypeError
  | KeyError (key : string)
  | AttributeError
  | ConfigurationError.

(** A Python dict with string keys and [Optional[str]] values. *)
Abbreviation Dict := (gmap string (option pystr)).

(** [d.get(k)] *)
Definition dict_get (d : Dict) (k : string) : option pystr :=
  default None (d !! k).

(** [d.get(k, dflt)] *)
Definition dict_get_default (d : Dict) (k : string) (dflt : option pystr)
  : option pystr :=
  default dflt (d !! k).

(** [d.update(e)]: the keys of [e] win. *)
Definition dict_update (d e : Dict) : Dict := e ∪ d.

(** ** The world the pipeline runs in *)

Module Runtime.

(** One entry per language-model invocation. *)
Inductive Call : Type :=
  | ClassifierCall (content : pystr)
  | ExtractorCall (content category : pystr).

(** [lm] is the state of the language model behind both predictors, [calls]
    the log of invocations, [sink] the records written to the output file. *)
Record World (LM : Type) : Type := mkWorld {
  lm : LM;
  calls : list Call;
  sink : list Dict
}.

Arguments mkWorld {LM} _ _ _.
Arguments lm {LM} _.
Arguments calls {LM} _.
Arguments sink {LM} _.

(** State and exceptions; the state survives a raised exception. *)
Definition M (LM A : Type) : Type := World LM → (Exn + A) * World LM.

Definition ret {LM A} (a : A) : M LM A := fun w => (inr a, w).

Definition raise {LM A} (e : Exn) : M LM A := fun w => (inl e, w).

Definition bind {LM A B} (m : M LM A) (k : A → M LM B) : M LM B :=
  fun w =>
    match m w with
    | (inl e, w') => (inl e, w')
    | (inr a, w') => k a w'
    end.

(** The contents the classifier has been invoked on. *)
Fixpoint classified (l : list Call) : list pystr :=
  match l with
  | [] => []
  | ClassifierCall content :: l' => content :: classified l'
  | ExtractorCall _ _ :: l' => classified l'
  end.

(** The (content, category) pairs the extractor has been invoked on. *)
Fixpoint extracted (l : list Call) : list (pystr * pystr) :=
  match l with
  | [] => []
  | ClassifierCall _ :: l' => extracted l'
  | ExtractorCall content category :: l' => (content, category) :: extracted l'
  end.

End Runtime.

Export Runtime.

Notation "'let*' x := c1 'in' c2" := (bind c1 (fun x => c2))
  (at level 10, x name, c1 at level 100, c2 at level 200).

(** ** model.py *)

Module Model.

Definition TARGET_CATEGORIES : list pystr :=
  Eval vm_compute in [py "研究前沿"; py "产业应用"; py "政策计划"].

(** The label of the fourth, rejected category. *)
Definition OTHER : pystr := Eval vm_compute in py "其他".

(** What one extractor call yields: [extraction.title],
    [extraction.short_summary], [extraction.detailed_summary]. *)
Record Extraction : Type := mkExtraction {
  title : pystr;
  short_summary : pystr;
  detailed_summary : pystr
}.

(** The dataclass [NewsMetadata]; Python does not enforce the annotations,
    so every field holds a [str] or [None]. *)
Record NewsMetadata : Type := mkNewsMetadata {
  raw_content : option pystr;
  release_time : option pystr;
  source_institution : option pystr;
  url : option pystr
}.

(** The [metadata] argument of [forward]: [None], a mapping, or a
    [NewsMetadata]. *)
Inductive MetadataArg : Type :=
  | MetaNone
  | MetaMapping (d : Dict)
  | MetaData (m : NewsMetadata).

(** [dataclasses.asdict] *)
Definition asdict (m : NewsMetadata) : Dict :=
  <["raw_content" := raw_content m]>
  (<["release_time" := release_time m]>
  (<["source_institution" := source_institution m]>
  (<["url" := url m]> ∅))).

(** The loop of [_normalize_category]: the first target that occurs in
    [category], [OTHER] when none does. *)
Fixpoint first_target (targets : list pystr) (category : pystr) : pystr :=
  match targets with
  | [] => OTHER
  | target :: rest =>
      if contains category target then target else first_target rest category
  end.

Definition _normalize_category (category : option pystr) : pystr :=
  match category with
  | None => OTHER
  | Some [] => OTHER
  | Some category => first_target TARGET_CATEGORIES (strip category)
  end.

(** The second [return] of [_extract_metadata], on the dict built from the
    metadata. *)
Definition metadata_fields (meta_dict : Dict) (fallback_content : pystr)
  : Dict :=
  <["raw_content" :=
      dict_get_default meta_dict "raw_content" (Some fallback_content)]>
  (<["release_time" := dict_get meta_dict "release_time"]>
  (<["source_institution" := dict_get meta_dict "source_institution"]>
  (<["url" := dict_get meta_dict "url"]> ∅))).

Definition _extract_metadata (metadata : MetadataArg) (fallback_content : pystr)
  : Dict :=
  match metadata with
  | MetaNone =>
      <["raw_content" := Some fallback_content]>
      (<["release_time" := None]>
      (<["source_institution" := None]>
      (<["url" := None]> ∅)))
  | MetaData m => metadata_fields (asdict m) fallback_content
  | MetaMapping d => metadata_fields d fallback_content
  end.

(** Normalization as the specification words it: a missing or empty label
    is forced to [OTHER]; otherwise the target names are tried in their fixed
    order and the first one that occurs in the label wins; [OTHER] when none
    occurs. *)
Inductive normalizes : option pystr → pystr → Prop :=
  | normalizes_missing : normalizes None OTHER
  | normalizes_empty : normalizes (Some []) OTHER
  | normalizes_first (label : pystr) (earlier later : list pystr)
      (target : pystr) :
      label ≠ [] →
      TARGET_CATEGORIES = earlier ++ target :: later →
      infix_of target label →
      (∀ u, u ∈ earlier → ¬ infix_of u label) →
      normalizes (Some label) target
  | normalizes_no_match (label : pystr) :
      label ≠ [] →
      (∀ u, u ∈ TARGET_CATEGORIES → ¬ infix_of u label) →
      normalizes (Some label) OTHER.

Section Pipeline.

Context {LM : Type}.

(** [self.classifier(content=...)], for a call that returns: the [category]
    field of the answer, a string or [None], and the model's next state. *)
Variable classifier : pystr → LM → option pystr * LM.

(** [self.extractor(content=..., category=...)], for a call that returns
    its three string fields. *)
Variable extractor : pystr → pystr → LM → Extraction * LM.

Definition call_classifier (content : pystr) : M LM (option pystr) :=
  fun w =>
    let '(category, lm') := classifier content (lm w) in
    (inr category,
     mkWorld lm' (calls w ++ [ClassifierCall content]) (sink w)).

Definition call_extractor (content category : pystr) : M LM Extraction :=
  fun w =>
    let '(extraction, lm') := extractor content category (lm w) in
    (inr extraction,
     mkWorld lm' (calls w ++ [ExtractorCall content category]) (sink w)).

Definition forward (content : pystr) (metadata : MetadataArg)
  : M LM (option Dict) :=
  let* classification := call_classifier content in
  let normalized_category := _normalize_category classification in
  if negb (bool_decide (normalized_category ∈ TARGET_CATEGORIES)) then
    ret None
  else
    let* extraction := call_extractor content normalized_category in
    let result : Dict :=
      <["category" := Some normalized_category]>
      (<["title" := Some (strip (title extraction))]>
      (<["short_summary" := Some (strip (short_summary extraction))]>
      (<["detailed_summary" := Some (strip (detailed_summary extraction))]>
       ∅))) in
    ret (Some (dict_update result (_extract_metadata metadata content))).

End Pipeline.

End Model.

Export Model.

(** ** main.py *)

Module Main.

(** Truthiness of a [str]. *)
Definition str_truthy (s : pystr) : bool :=
  match s with
  | [] => false
  | _ :: _ => true
  end.

Section Driver.

Context {LM : Type}.

(** The [pipeline] argument: calling it runs [NewsPipeline.forward]. *)
Variable pipeline : pystr → MetadataArg → M LM (option Dict).

(** [JsonlWriter.__enter__] opens the file with mode ["w"]. *)
Definition writer_open : M LM unit :=
  fun w => (inr tt, mkWorld (lm w) (calls w) []).

(** [JsonlWriter.append]: one more line in the file, for a record whose
    text the file can take (the write of a character that UTF-8 cannot
    encode raises instead, see [Utils.append]). *)
Definition writer_append (record : Dict) : M LM unit :=
  fun w => (inr tt, mkWorld (lm w) (calls w) (sink w ++ [record])).

(** The body of the [for record in records] loop, with the counter
    [written]. *)
Fixpoint process_loop (records : list Dict) (written : nat) : M LM nat :=
  match records with
  | [] => ret written
  | record :: rest =>
      let metadata :=
        mkNewsMetadata
          (dict_get_default record "raw_content" (Some []))
          (dict_get record "release_time")
          (dict_get record "source_institution")
          (dict_get record "url") in
      match raw_content metadata with
      | None => raise AttributeError
      | Some content =>
          if negb (str_truthy (strip content)) then
            process_loop rest written
          else
            let* prediction := pipeline content (MetaData metadata) in
            match prediction with
            | None => process_loop rest written
            | Some prediction =>
                let short_summary := dict_get prediction "short_summary" in
                let detailed_summary :=
                  dict_get prediction "detailed_summary" in
                let prediction :=
                  if truthy short_summary && truthy detailed_summary then
                    <["detailed_summary" :=
                        Some (fmt short_summary ++ [0xA]
                              ++ fmt detailed_summary)]> prediction
                  else prediction in
                let* _ := writer_append prediction in
                process_loop rest (S written)
            end
      end
  end.

(** Returns the counter that the last line of the function prints. *)
Definition process_records (records : list Dict) : M LM nat :=
  let* _ := writer_open in
  process_loop records 0%nat.

End Driver.

End Main.

Export Main.

(** ** optimize.py *)

Module Bootstrap.

#[local] Set Warnings "-register-all".

(** The value [json.load] returns.  A number keeps its literal: the code
    never looks inside one. *)
Inductive Json : Type :=
  | JNull
  | JBool (b : bool)
  | JNum (literal : string)
  | JStr (s : pystr)
  | JArr (items : list Json)
  | JObj (fields : gmap string Json).

(** What [path] holds: no file, a file that is not UTF-8 text, a text that
    is not JSON, or a JSON value. *)
Inductive ExampleFile : Type :=
  | Absent
  | Undecodable
  | Malformed
  | Holds (raw_data : Json).

(** A [dspy.Example] as [load_training_examples] builds it ([ex_title],
    [ex_short_summary] and [ex_detailed_summary] are its [title],
    [short_summary] and [detailed_summary]); [input_keys] is what
    [with_inputs] marks. *)
Record Example : Type := mkExample {
  content : Json;
  category : Json;
  ex_title : Json;
  ex_short_summary : Json;
  ex_detailed_summary : Json;
  input_keys : list string
}.

(** The second argument of the metric: [None], a dict, or an object with
    attributes (a [dspy.Prediction]). *)
Inductive Pred : Type :=
  | PredNone
  | PredDict (d : Dict)
  | PredObj (attrs : Dict).

(** What the bootstrapper is constructed with. *)
Record BootstrapFewShot : Type := mkBootstrapFewShot {
  metric : Example → Pred → bool;
  max_bootstrapped_demos : nat;
  max_labeled_demos : nat
}.

Definition ebind {A B} (m : Exn + A) (k : A → Exn + B) : Exn + B :=
  match m with
  | inl e => inl e
  | inr a => k a
  end.

Notation "'let?' x := c1 'in' c2" := (ebind c1 (fun x => c2))
  (at level 10, x name, c1 at level 100, c2 at level 200).

(** [item[key]] *)
Definition subscript (item : Json) (key : string) : Exn + Json :=
  match item with
  | JObj fields =>
      match fields !! key with
      | Some v => inr v
      | None => inl (KeyError key)
      end
  | _ => inl TypeError
  end.

(** The items a [for] loop draws from a JSON value. *)
Definition py_iter (v : Json) : Exn + list Json :=
  match v with
  | JArr items => inr items
  | JStr s => inr (map (fun c => JStr [c]) s)
  | JObj fields => inr (map (fun kv => JStr (py (fst kv))) (map_to_list fields))
  | JNull | JBool _ | JNum _ => inl TypeError
  end.

(** The [for item in raw_data] loop, with the list [examples] it appends
    to. *)
Fixpoint load_items (items : list Json) (examples : list Example)
  : Exn + list Example :=
  match items with
  | [] => inr examples
  | item :: rest =>
      let? c := subscript item "content" in
      let? k := subscript item "category" in
      let? t := subscript item "title" in
      let? s := subscript item "short_summary" in
      let? d := subscript item "detailed_summary" in
      let example := mkExample c k t s d ["content"%string] in
      load_items rest (examples ++ [example])
  end.

Definition load_training_examples (path : ExampleFile) : Exn + list Example :=
  match path with
  | Absent => inl FileNotFoundError
  | Undecodable => inl UnicodeDecodeError
  | Malformed => inl JSONDecodeError
  | Holds raw_data =>
      let raw_data :=
        match raw_data with
        | JObj _ => JArr [raw_data]
        | _ => raw_data
        end in
      let? items := py_iter raw_data in
      load_items items []
  end.

(** [v == j] for a prediction field [v] (a string or [None]) and a gold
    field [j]. *)
Definition py_eq (v : option pystr) (j : Json) : bool :=
  match v, j with
  | None, JNull => true
  | Some s, JStr s' => bool_decide (s = s')
  | _, _ => false
  end.

(** The gold value a prediction field is equal to. *)
Definition to_json (v : option pystr) : Json :=
  match v with
  | None => JNull
  | Some s => JStr s
  end.

(** [getattr(pred, field)] without a default, for the data fields of a
    prediction that is not a dict. *)
Definition py_getattr (pred : Pred) (field : string) : Exn + option pystr :=
  match pred with
  | PredObj attrs =>
      match attrs !! field with
      | Some v => inr v
      | None => inl AttributeError
      end
  | PredNone | PredDict _ => inl AttributeError
  end.

Definition _safe_get (pred : Pred) (field : string) : option pystr :=
  match pred with
  | PredDict d => dict_get d field
  | _ =>
      match py_getattr pred field with
      | inr v => v
      | inl _ => None
      end
  end.

Definition evaluation_metric (gold : Example) (pred : Pred) : bool :=
  let category_match := py_eq (_safe_get pred "category") (category gold) in
  let detailed_ok := truthy (_safe_get pred "detailed_summary") in
  category_match && detailed_ok.

(** The prediction has no value for [field]: it is [None], or a dict without
    that key, or an object without that attribute. *)
Definition lacks (pred : Pred) (field : string) : Prop :=
  match pred with
  | PredNone => True
  | PredDict d => d !! field = None
  | PredObj attrs => attrs !! field = None
  end.

(** What the pipeline returns, as the metric receives it. *)
Definition as_pred (prediction : option Dict) : Pred :=
  match prediction with
  | None => PredNone
  | Some d => PredDict d
  end.

Section Compile.

Context {LM Compiled : Type}.
Variable classifier : pystr → LM → option pystr * LM.
Variable extractor : pystr → pystr → LM → Extraction * LM.

(** [teleprompter.compile(student=..., trainset=...)] of the dspy library:
    any computation over the world. *)
Variable teleprompter_compile :
  BootstrapFewShot → (pystr → MetadataArg → M LM (option Dict)) →
  list Example → M LM Compiled.

(** Returns the compiled model that [main] saves. *)
Definition main (example_path : ExampleFile) : M LM Compiled :=
  match load_training_examples example_path with
  | inl e => raise e
  | inr trainset =>
      let pipeline := forward classifier extractor in
      let teleprompter :=
        mkBootstrapFewShot evaluation_metric
          (Nat.min 4 (length trainset)) (length trainset) in
      teleprompter_compile teleprompter pipeline trainset
  end.

End Compile.

End Bootstrap.

Export Bootstrap.

(** ** The library's bootstrapper *)

Module Teleprompt.

Section Bootstrapper.

Context {LM : Type}.

(** The text the pipeline is run on: the [content] of an example, when it is
    a string. *)
Definition content_text (example : Example) : option pystr :=
  match content example with
  | JStr s => Some s
  | _ => None
  end.

(** Modelled from the spec: the run of the pipeline over the labelled set
    inside [BootstrapFewShot.compile] of the dspy library, which is not part
    of the repository.  Specification, section 4.4: run the pipeline over
    the labeled set, using the metric to decide which generated traces
    qualify as valid few-shot demonstrations.  The examples are taken in the
    order of the set; an example whose content is not a string is not run
    and does not qualify. *)
Fixpoint qualifying (judge : Example → Pred → bool)
    (student : pystr → MetadataArg → M LM (option Dict))
    (trainset : list Example) : M LM (list Example) :=
  match trainset with
  | [] => ret []
  | example :: rest =>
      match content_text example with
      | None => qualifying judge student rest
      | Some text =>
          let* prediction := student text MetaNone in
          let* kept := qualifying judge student rest in
          ret (if judge example (as_pred prediction)
               then example :: kept else kept)
      end
  end.

(** Modelled from the spec: [BootstrapFewShot.compile] of the dspy library,
    which is not part of the repository; the result is the list of
    demonstrations selected for bootstrapping.  Specification, section 4.4:
    the input is a non-empty sequence of labeled examples, and [compile]
    fails with a configuration error, before any model invocation, when the
    example set is empty; otherwise it runs the pipeline over the labeled
    set and retains the qualifying demonstrations up to the bound. *)
Definition compile (teleprompter : BootstrapFewShot)
    (student : pystr → MetadataArg → M LM (option Dict))
    (trainset : list Example) : M LM (list Example) :=
  match trainset with
  | [] => raise ConfigurationError
  | _ :: _ =>
      let* demos := qualifying (metric teleprompter) student trainset in
      ret (take (max_bootstrapped_demos teleprompter) demos)
  end.

End Bootstrapper.

End Teleprompt.

Export Teleprompt.

(** ** Concrete models and inputs *)

Module Scenario.

(** A classifier that answers [label] whatever the article. *)
Definition fixed_classifier (label : option pystr)
  : pystr → unit → option pystr * unit :=
  fun _ st => (label, st).

(** An extractor that answers [e] whatever the article. *)
Definition fixed_extractor (e : Extraction)
  : pystr → pystr → unit → Extraction * unit :=
  fun _ _ st => (e, st).

Definition w0 : World unit := mkWorld tt [] [].

Definition policy_label : pystr := Eval vm_compute in py "这是政策计划类新闻".

Definition gossip_label : pystr := Eval vm_compute in py "娱乐八卦".

Definition article : pystr := Eval vm_compute in py "某机构发布AI芯片新政策".

Definition ministry : pystr := Eval vm_compute in py "X部委".

Definition points : pystr := Eval vm_compute in py "(1)要点一(2)要点二".

(** An extraction whose fields carry stray whitespace. *)
Definition padded : Extraction :=
  Eval vm_compute in
  mkExtraction (py "  芯片新政 ") (0x3000 :: py "看点" ++ [0xA])
    (py " (1)要点一(2)要点二 ").

(** Scenario C: the short summary is empty. *)
Definition no_short : Extraction := mkExtraction (py "标题") [] points.

Definition record_A : Dict :=
  <["raw_content" := Some article]>
  (<["source_institution" := Some ministry]> ∅).

Definition metadata_A : NewsMetadata :=
  mkNewsMetadata (Some article) None (Some ministry) None.

(** A blank row: the content is whitespace only. *)
Definition record_blank : Dict :=
  <["raw_content" := Some [0x20; 0x3000; 0xA]]> ∅.

Definition example_item (label : pystr) : Json :=
  JObj (<["content" := JStr article]>
       (<["category" := JStr label]>
       (<["title" := JStr (py "标题")]>
       (<["short_summary" := JStr (py "看点")]>
       (<["detailed_summary" := JStr points]> ∅))))).

(** Scenario D: an example file with two labelled examples. *)
Definition two_examples : ExampleFile :=
  Holds (JArr [example_item (py "政策计划"); example_item (py "研究前沿")]).

Definition example_of (label : pystr) : Example :=
  mkExample (JStr article) (JStr label) (JStr (py "标题")) (JStr (py "看点"))
    (JStr points) ["content"%string].


End Scenario.

(** ** utils.py *)

Module Utils.

(** Exceptions of the file helpers: [FileNotFoundError], [ValueError] (with
    the rejected suffix), [RuntimeError], the [KeyError] that lists the
    fields without a column, the [KeyError] of indexing a row with a label
    it does not have, and the [UnicodeEncodeError] of writing a character
    that UTF-8 cannot encode. *)
Inductive IOError : Type :=
  | IO_FileNotFoundError
  | IO_ValueError (suffix : pystr)
  | IO_RuntimeError
  | IO_KeyError (missing : list string)
  | IO_KeyError_label (column : pystr)
  | IO_UnicodeEncodeError.

(** A [ColumnAliases] mapping, in insertion order: field, then its aliases
    in the order of the tuple.  The fields of a mapping are distinct. *)
Abbreviation ColumnAliases := (list (string * list pystr)).

Definition DEFAULT_COLUMN_ALIASES : ColumnAliases :=
  Eval vm_compute in
  [("release_time"%string, [py "资源发布时间"; py "发布时间"; py "时间"]);
   ("source_institution"%string, [py "资源来源机构"; py "来源"; py "机构"]);
   ("url"%string, [py "资源URL"; py "资源url"; py "链接"; py "url"]);
   ("raw_content"%string,
    [py "原文内容"; py "内容"; py "新闻内容"; py "正文"])].

(** [column_aliases or DEFAULT_COLUMN_ALIASES]: [None] and the empty
    mapping are falsy. *)
Definition aliases_or_default (column_aliases : option ColumnAliases)
  : ColumnAliases :=
  match column_aliases with
  | None | Some [] => DEFAULT_COLUMN_ALIASES
  | Some aliases => aliases
  end.

(** The two pandas readers [_select_loader] chooses between. *)
Inductive Loader : Type :=
  | read_excel
  | read_csv.

Definition XLS : pystr := Eval vm_compute in py ".xls".
Definition XLSX : pystr := Eval vm_compute in py ".xlsx".
Definition CSV : pystr := Eval vm_compute in py ".csv".

Definition _select_loader (suffix : pystr) : IOError + Loader :=
  if bool_decide (suffix ∈ [XLS; XLSX]) then inr read_excel
  else if bool_decide (suffix = CSV) then inr read_csv
  else inl (IO_ValueError suffix).

(** A column label of a sheet: a string, as a header cell of text gives
    it, or another value (a number or a date in the header row of a
    workbook), kept with its [str()]. *)
Inductive Label : Type :=
  | StrLabel (name : pystr)
  | OtherLabel (text : pystr).

#[global] Instance Label_eq_dec : EqDecision Label.
Proof. solve_decision. Defined.

(** [str(col)] *)
Definition label_str (col : Label) : pystr :=
  match col with
  | StrLabel name => name
  | OtherLabel text => text
  end.

(** What a reader returns, after [fillna("")]: the column labels, and for
    every row the text [str(value)] of its cell at each column position. *)
Record DataFrame : Type := mkDataFrame {
  columns : list Label;
  rows : list (nat → pystr)
}.

(** The position of the column whose label is the string [column]. *)
Fixpoint label_position (columns : list Label) (column : pystr) : option nat :=
  match columns with
  | [] => None
  | col :: rest =>
      if bool_decide (col = StrLabel column) then Some 0%nat
      else S <$> label_position rest column
  end.

(** [str(row[column])] for a string [column]: the text of the cell under
    that label, a [KeyError] when no column has it (a label that is not a
    string is not equal to its [str()]). *)
Definition row_get (columns : list Label) (row : nat → pystr) (column : pystr)
  : IOError + pystr :=
  match label_position columns column with
  | Some i => inr (row i)
  | None => inl (IO_KeyError_label column)
  end.

(** The file behind [file_path]: whether it exists, [path.suffix], and what
    each reader makes of it ([None] when the reader raises). *)
Record NewsFile : Type := mkNewsFile {
  file_exists : bool;
  suffix : pystr;
  load : Loader → option DataFrame
}.

(** [name.replace("：", ":")]: both are single characters. *)
Definition replace_colon (name : pystr) : pystr :=
  map (fun c => if c =? 0xFF1A then 0x3A else c) name.

Section Columns.

(** [str.lower], whose table of case mappings is Python's. *)
Variable lower : pystr → pystr.

Definition _normalize (name : pystr) : pystr :=
  lower (strip (replace_colon name)).

(** The dict comprehension [{_normalize(col): str(col) for col in columns}]:
    a later column replaces an earlier one with the same normalized name. *)
Definition normalized_columns (columns : list pystr) : gmap pystr pystr :=
  foldl (fun m col => <[_normalize col := col]> m) ∅ columns.

(** The inner loop of [_build_column_mapping] over the aliases of one
    field. *)
Fixpoint target_column (normalized : gmap pystr pystr) (aliases : list pystr)
  : option pystr :=
  match aliases with
  | [] => None
  | alias :: rest =>
      match normalized !! _normalize alias with
      | Some column => Some column
      | None => target_column normalized rest
      end
  end.

(** The resulting mapping, as its items in insertion order. *)
Definition _build_column_mapping
    (columns : list pystr) (column_aliases : ColumnAliases)
  : list (string * option pystr) :=
  let normalized := normalized_columns columns in
  map (fun fa => (fa.1, target_column normalized fa.2)) column_aliases.

(** The fields whose column is [None]. *)
Fixpoint missing_fields (standardized_columns : list (string * option pystr))
  : list string :=
  match standardized_columns with
  | [] => []
  | (field, None) :: rest => field :: missing_fields rest
  | (_, Some _) :: rest => missing_fields rest
  end.

(** The dict comprehension that builds the record of one row, over the
    items of the mapping that are left, with the [record] built so far. *)
Fixpoint row_record (columns : list Label) (row : nat → pystr)
    (standardized_columns : list (string * option pystr)) (record : Dict)
  : IOError + Dict :=
  match standardized_columns with
  | [] => inr record
  | (field, Some column) :: rest =>
      match row_get columns row column with
      | inl e => inl e
      | inr text =>
          row_record columns row rest (<[field := Some (strip text)]> record)
      end
  | (_, None) :: rest => row_record columns row rest record
  end.

(** The [for _, row in df.iterrows()] loop, with the list [results] it
    appends to. *)
Fixpoint read_rows (columns : list Label) (rows : list (nat → pystr))
    (standardized_columns : list (string * option pystr))
    (results : list Dict) : IOError + list Dict :=
  match rows with
  | [] => inr results
  | row :: rest =>
      match row_record columns row standardized_columns ∅ with
      | inl e => inl e
      | inr record =>
          read_rows columns rest standardized_columns (results ++ [record])
      end
  end.

Definition read_news_file
    (file_path : NewsFile) (column_aliases : option ColumnAliases)
  : IOError + list Dict :=
  let column_aliases := aliases_or_default column_aliases in
  if negb (file_exists file_path) then inl IO_FileNotFoundError
  else
    match _select_loader (lower (suffix file_path)) with
    | inl e => inl e
    | inr loader =>
        match load file_path loader with
        | None => inl IO_RuntimeError
        | Some df =>
            let standardized_columns :=
              _build_column_mapping (map label_str (columns df))
                column_aliases in
            match missing_fields standardized_columns with
            | (_ :: _) as missing => inl (IO_KeyError missing)
            | [] => read_rows (columns df) (rows df) standardized_columns []
            end
        end
    end.

End Columns.

(** A text that UTF-8 encodes: every character is a Unicode scalar value,
    none is a surrogate (U+D800 to U+DFFF). *)
Definition encodable (text : pystr) : bool :=
  forallb (fun c => (c <? 0xD800) || ((0xDFFF <? c) && (c <=? 0x10FFFF))) text.

Section Writer.

(** [json.dumps(record, ensure_ascii=...)] *)
Variable dumps : bool → Dict → pystr.

(** A [JsonlWriter] with the file at its [file_path]: [_fp] tells whether
    [self._fp] holds the open file, [file] is the text on disk.  The
    directory can be created, and the file opened, written and flushed. *)
Record JsonlWriter : Type := mkJsonlWriter {
  ensure_ascii : bool;
  _fp : bool;
  file : pystr
}.

(** Opens the file with mode ["w"] and encoding UTF-8. *)
Definition __enter__ (self : JsonlWriter) : JsonlWriter :=
  mkJsonlWriter (ensure_ascii self) true [].

(** The write encodes the whole line before any of it reaches the file. *)
Definition append (self : JsonlWriter) (record : Dict)
  : (IOError + unit) * JsonlWriter :=
  if negb (_fp self) then (inl IO_RuntimeError, self)
  else
    let line := dumps (ensure_ascii self) record in
    if encodable (line ++ [0xA]) then
      (inr tt,
       mkJsonlWriter (ensure_ascii self) true (file self ++ line ++ [0xA]))
    else (inl IO_UnicodeEncodeError, self).

Definition __exit__ (self : JsonlWriter) : JsonlWriter :=
  if negb (_fp self) then self
  else mkJsonlWriter (ensure_ascii self) false (file self).

(** The [for record in records] loop of [write_jsonl]. *)
Fixpoint append_all (self : JsonlWriter) (records : list Dict)
  : (IOError + unit) * JsonlWriter :=
  match records with
  | [] => (inr tt, self)
  | record :: rest =>
      match append self record with
      | (inl e, self') => (inl e, self')
      | (inr _, self') => append_all self' rest
      end
  end.

(** [write_jsonl] on a file whose text is [disk]: the outcome, and the text
    afterwards.  The [with] statement leaves through [__exit__] on every
    path. *)
Definition write_jsonl (records : list Dict) (disk : pystr)
    (ensure_ascii : bool) : (IOError + unit) * pystr :=
  let writer := __enter__ (mkJsonlWriter ensure_ascii false disk) in
  let '(outcome, writer) := append_all writer records in
  (outcome, file (__exit__ writer)).

Definition write_json (records : list Dict) (disk : pystr) (indent : nat)
  : (IOError + unit) * pystr :=
  write_jsonl records disk false.

(** The calls a client can make on a writer. *)
Inductive WriterCall : Type :=
  | Enter
  | Append (record : Dict)
  | Exit.

(** A sequence of calls on one writer; a raised exception ends it. *)
Fixpoint run_calls (self : JsonlWriter) (script : list WriterCall)
  : (IOError + unit) * JsonlWriter :=
  match script with
  | [] => (inr tt, self)
  | Enter :: rest => run_calls (__enter__ self) rest
  | Exit :: rest => run_calls (__exit__ self) rest
  | Append record :: rest =>
      match append self record with
      | (inl e, self') => (inl e, self')
      | (inr _, self') => run_calls self' rest
      end
  end.

End Writer.

End Utils.

(** ** main.py: the entry point *)

Module Entry.

Section Run.

Context {LM : Type}.
Variable lower : pystr → pystr.
Variable classifier : pystr → LM → option pystr * LM.
Variable extractor : pystr → pystr → LM → Extraction * LM.

(** [main], for the data file the arguments name.  [parse_args] and
    [load_pipeline] are taken to return; they make no model call, and the
    pipeline that [load_pipeline] returns is [forward] over the model state of
    the world.  A failed read leaves before [process_records] is entered. *)
Definition main (data_file : Utils.NewsFile)
  : World LM → (Utils.IOError + (Exn + nat)) * World LM :=
  fun w =>
    match Utils.read_news_file lower data_file None with
    | inl e => (inl e, w)
    | inr records =>
        let '(outcome, w') :=
          process_records (forward classifier extractor) records w in
        (inr outcome, w')
    end.

End Run.

End Entry.

(** ** Further concrete inputs *)

Module Fixture.

(** [str.lower] on the letters A to Z; every other character is kept. *)
Definition ascii_lower (s : pystr) : pystr :=
  map (fun c => if (0x41 <=? c) && (c <=? 0x5A) then c + 0x20 else c) s.

(** A sheet with a padded header, an upper-case header, a column no field
    uses, and two rows, the second one blank. *)
Definition sheet : Utils.DataFrame :=
  Utils.mkDataFrame
    [Utils.StrLabel (py " 发布时间 "); Utils.StrLabel (py "来源");
     Utils.StrLabel (py "资源URL"); Utils.StrLabel (py "正文");
     Utils.StrLabel (py "备注")]
    [fun i => match i with
              | 3%nat => py " 某机构发布AI芯片新政策 "
              | 1%nat => py "X部委"
              | _ => []
              end;
     fun _ => []].

Definition sheet_file : Utils.NewsFile :=
  Utils.mkNewsFile true (py ".XLSX")
    (fun loader => match loader with
                   | Utils.read_excel => Some sheet
                   | Utils.read_csv => None
                   end).

(** The same sheet without a content column. *)
Definition headless_file : Utils.NewsFile :=
  Utils.mkNewsFile true (py ".csv")
    (fun _ => Some (Utils.mkDataFrame
                      [Utils.StrLabel (py "来源"); Utils.StrLabel (py "链接")]
                      [fun _ => []])).

(** A workbook whose header row holds the number 2024: the reader gives that
    column a label that is not a string. *)
Definition yearly_file : Utils.NewsFile :=
  Utils.mkNewsFile true (py ".xlsx")
    (fun _ => Some (Utils.mkDataFrame
                      [Utils.StrLabel (py "正文"); Utils.OtherLabel (py "2024")]
                      [fun _ => py "某机构发布AI芯片新政策"])).

(** Aliases under which the release time is the column named 2024. *)
Definition yearly_aliases : Utils.ColumnAliases :=
  [("release_time"%string, [py "2024"]); ("raw_content"%string, [py "正文"])].

(** A rendering of a record as one line of text, for running the writer. *)
Definition show (ensure_ascii : bool) (record : Dict) : pystr :=
  default [] (dict_get record "title").

Definition titled (t : pystr) : Dict := <["title" := Some t]> ∅.

(** A record whose [raw_content] is [None]. *)
Definition record_none : Dict := <["raw_content" := None]> ∅.

End Fixture.

(** ** Predicates used in the statements *)

(** The keys of a record that [forward] returns. *)
Definition RECORD_KEYS : list string :=
  ["category"; "title"; "short_summary"; "detailed_summary";
   "raw_content"; "release_time"; "source_institution"; "url"]%string.

(** The keys [load_training_examples] reads from an item, in the order in
    which it reads them. *)
Definition EXAMPLE_FIELDS : list string :=
  ["content"; "category"; "title"; "short_summary"; "detailed_summary"]%string.

(** [item] is a JSON object, and [ex] holds its five fields. *)
Definition built_from (item : Json) (ex : Example) : Prop :=
  ∃ fields,
    item = JObj fields
    ∧ fields !! "content" = Some (content ex)
    ∧ fields !! "category" = Some (category ex)
    ∧ fields !! "title" = Some (ex_title ex)
    ∧ fields !! "short_summary" = Some (ex_short_summary ex)
    ∧ fields !! "detailed_summary" = Some (ex_detailed_summary ex)
    ∧ input_keys ex = ["content"%string].

(** The items the loader iterates over, for a file content on which it can
    succeed: the elements of a list, a single object, or nothing for the
    empty string. *)
Definition items_of (raw_data : Json) (items : list Json) : Prop :=
  raw_data = JArr items
  ∨ (∃ fields, raw_data = JObj fields ∧ items = [raw_data])
  ∨ (raw_data = JStr [] ∧ items = []).

(** The [raw_content] a record enters the loop with. *)
Definition content_of (record : Dict) : option pystr :=
  dict_get_default record "raw_content" (Some []).

(** The first of [keys] that an object lacks. *)
Fixpoint first_missing (fields : gmap string Json) (keys : list string)
  : option string :=
  match keys with
  | [] => None
  | key :: rest =>
      match fields !! key with
      | None => Some key
      | Some _ => first_missing fields rest
      end
  end.

(** The exception an item makes the loader raise: [TypeError] when it is not
    an object, [KeyError] for the first field an object lacks, none for an
    object with all five fields. *)
Definition item_error (item : Json) : option Exn :=
  match item with
  | JObj fields => KeyError <$> first_missing fields EXAMPLE_FIELDS
  | _ => Some TypeError
  end.


(** What a prediction itself holds for a field, whichever its shape: the
    string stored under that key of a dict or under that attribute of an
    object; [None] when the prediction is [None], has no such entry, or
    stores [None] there. *)
Definition predicted (pred : Pred) (field : string) : option pystr :=
  match pred with
  | PredNone => None
  | PredDict entries | PredObj entries =>
      match entries !! field with
      | Some (Some s) => Some s
      | _ => None
      end
  end.

(** The written record [out] carries the four metadata values of the input
    record. *)
Definition carried (record out : Dict) : Prop :=
  out !! "raw_content" = Some (content_of record)
  ∧ out !! "release_time" = Some (dict_get record "release_time")
  ∧ out !! "source_institution" = Some (dict_get record "source_institution")
  ∧ out !! "url" = Some (dict_get record "url").

(** The written record holds one of the three target categories. *)
Definition has_target_category (out : Dict) : Prop :=
  ∃ cat, cat ∈ TARGET_CATEGORIES ∧ out !! "category" = Some (Some cat).

(** The column [_build_column_mapping] must choose for a field with these
    aliases: the column of the first alias, in the order of the aliases, whose
    normalized name is the normalized name of some column, and among the
    columns with that name the last one; [None] when no alias names a
    column. *)
Definition chosen_column (lower : pystr → pystr)
    (columns aliases : list pystr) (r : option pystr) : Prop :=
  match r with
  | Some column =>
      ∃ earlier alias later before after,
        aliases = earlier ++ alias :: later
        ∧ (∀ a c, a ∈ earlier → c ∈ columns →
                  Utils._normalize lower c ≠ Utils._normalize lower a)
        ∧ columns = before ++ column :: after
        ∧ Utils._normalize lower column = Utils._normalize lower alias
        ∧ (∀ c, c ∈ after →
                Utils._normalize lower c ≠ Utils._normalize lower alias)
  | None =>
      ∀ a c, a ∈ aliases → c ∈ columns →
             Utils._normalize lower c ≠ Utils._normalize lower a
  end.

(** None of [aliases] names a column: no normalized name of [names] is the
    normalized form of an alias. *)
Definition unnamed (lower : pystr → pystr) (names aliases : list pystr)
  : Prop :=
  Forall (fun a =>
            Forall (fun c => Utils._normalize lower c
                             ≠ Utils._normalize lower a) names) aliases.

#[global] Instance unnamed_dec lower names aliases :
  Decision (unnamed lower names aliases).
Proof. unfold unnamed. apply _. Defined.

(** The label is a string. *)
Definition is_string_label (col : Utils.Label) : Prop :=
  match col with
  | Utils.StrLabel _ => True
  | Utils.OtherLabel _ => False
  end.

(** Two names that differ at most in the width of their colons: at every
    position they hold the same character, or one holds the full-width colon
    and the other the ASCII colon. *)
Definition same_up_to_colon_width (a b : pystr) : Prop :=
  Forall2 (fun x y => x = y
                      ∨ (x = 0xFF1A ∧ y = 0x3A)
                      ∨ (x = 0x3A ∧ y = 0xFF1A)) a b.

(** The records whose lines reach the file: those before the first record
    whose line holds a character that UTF-8 cannot encode. *)
Fixpoint writable (dumps : bool → Dict → pystr) (ensure_ascii : bool)
    (records : list Dict) : list Dict :=
  match records with
  | [] => []
  | record :: rest =>
      if Utils.encodable (dumps ensure_ascii record) then
        record :: writable dumps ensure_ascii rest
      else []
  end.

(** The text of the lines for [records]. *)
Definition lines_of (dumps : bool → Dict → pystr) (ensure_ascii : bool)
    (records : list Dict) : pystr :=
  concat (map (fun record => dumps ensure_ascii record ++ [0xA]) records).

(** The records a script appends. *)
Fixpoint appended (script : list Utils.WriterCall) : list Dict :=
  match script with
  | [] => []
  | Utils.Append record :: rest => record :: appended rest
  | _ :: rest => appended rest
  end.

(** * Properties *)

(** ** Strings *)

Section StringFacts.

Implicit Types (s p a b : pystr) (c : N).

Lemma starts_with_prefix p s : starts_with p s = true ↔ ∃ b, s = p ++ b.
Proof.
  revert s; induction p as [|x p IH]; intros s; simpl.
  - split; [eauto|done].
  - destruct s as [|y s].
    + split; [done|]. intros [b Hb]; discriminate.
    + rewrite andb_true_iff, N.eqb_eq, IH. split.
      * intros [-> [b ->]]. by exists b.
      * intros [b Hb]. injection Hb as -> ->. eauto.
Qed.

Lemma contains_infix s p : contains s p = true ↔ infix_of p s.
Proof.
  induction s as [|x s IH]; simpl.
  - rewrite orb_false_r, starts_with_prefix. split.
    + intros [b Hb]. by exists [], b.
    + intros (a & b & Hab). symmetry in Hab.
      apply app_eq_nil in Hab as [-> Hpb].
      apply app_eq_nil in Hpb as [-> ->]. by exists [].
  - rewrite orb_true_iff, starts_with_prefix, IH. split.
    + intros [[b Hb]|(a & b & Hab)].
      * by exists [], b.
      * exists (x :: a), b. by rewrite Hab.
    + intros (a & b & Hab). destruct a as [|y a].
      * left. by exists b.
      * right. injection Hab as -> ->. by exists a, b.
Qed.

Lemma contains_false s p : contains s p = false ↔ ¬ infix_of p s.
Proof. rewrite <- contains_infix. by destruct (contains s p). Qed.

Lemma infix_of_reverse p s : infix_of p s → infix_of (reverse p) (reverse s).
Proof.
  intros (a & b & ->). exists (reverse b), (reverse a).
  by rewrite !reverse_app, <- app_assoc.
Qed.

Lemma lstrip_split s : ∃ a, s = a ++ lstrip s.
Proof.
  induction s as [|x s [a Ha]]; simpl.
  - by exists [].
  - destruct (is_space x).
    + exists (x :: a). simpl. by f_equal.
    + by exists [].
Qed.

Lemma rstrip_split s : ∃ b, s = rstrip s ++ b.
Proof.
  unfold rstrip. destruct (lstrip_split (reverse s)) as [a Ha].
  exists (reverse a).
  rewrite <- reverse_app, <- Ha. by rewrite reverse_involutive.
Qed.

Lemma strip_split s : ∃ a b, s = a ++ strip s ++ b.
Proof.
  unfold strip. destruct (lstrip_split s) as [a Ha].
  destruct (rstrip_split (lstrip s)) as [b Hb].
  exists a, b. by rewrite <- Hb.
Qed.

Lemma lstrip_head s c : head (lstrip s) = Some c → is_space c = false.
Proof.
  induction s as [|x s IH]; simpl; [done|].
  destruct (is_space x) eqn:Hx; [done|].
  simpl. by intros [= <-].
Qed.

Lemma rstrip_last s c : last (rstrip s) = Some c → is_space c = false.
Proof. unfold rstrip. rewrite last_reverse. apply lstrip_head. Qed.

Lemma rstrip_head s c : head (rstrip s) = Some c → head s = Some c.
Proof.
  destruct (rstrip_split s) as [b Hb]. intros H.
  rewrite Hb. apply head_app_Some. by left.
Qed.

Lemma strip_trimmed s : trimmed (strip s).
Proof.
  split; intros c H.
  - apply rstrip_head in H. by eapply lstrip_head.
  - by eapply rstrip_last.
Qed.

(** Stripping cannot cut into an occurrence that starts and ends with a
    visible character. *)
Lemma lstrip_keeps_infix p s c :
  head p = Some c → is_space c = false →
  infix_of p s → infix_of p (lstrip s).
Proof.
  intros Hc Hsp (a & b & ->).
  apply head_Some in Hc as [p' ->].
  induction a as [|x a IH]; simpl.
  - rewrite Hsp. by exists [], b.
  - destruct (is_space x); [done|]. by exists (x :: a), b.
Qed.

Lemma rstrip_keeps_infix p s c :
  last p = Some c → is_space c = false →
  infix_of p s → infix_of p (rstrip s).
Proof.
  intros Hc Hsp Hin. unfold rstrip.
  rewrite <- (reverse_involutive p).
  apply infix_of_reverse.
  apply lstrip_keeps_infix with c; [by rewrite head_reverse|done|].
  by apply infix_of_reverse.
Qed.

Lemma strip_infix p s c c' :
  head p = Some c → is_space c = false →
  last p = Some c' → is_space c' = false →
  infix_of p (strip s) ↔ infix_of p s.
Proof.
  intros Hc Hsp Hc' Hsp'. split.
  - intros (a & b & Hab).
    destruct (strip_split s) as (a' & b' & Hs).
    exists (a' ++ a), (b ++ b').
    rewrite Hs, Hab. by rewrite <- !app_assoc.
  - intros Hin. unfold strip.
    apply rstrip_keeps_infix with c'; [done..|].
    by apply lstrip_keeps_infix with c.
Qed.

Lemma strip_idempotent s : strip (strip s) = strip s.
Proof.
  assert (Hl : ∀ t, (∀ c, head t = Some c → is_space c = false) →
                    lstrip t = t).
  { intros [|x t] H; simpl; [done|]. by rewrite (H x). }
  destruct (strip_trimmed s) as [Hh Hl'].
  unfold strip at 1. rewrite (Hl _ Hh).
  unfold rstrip. rewrite Hl; [by rewrite reverse_involutive|].
  intros c. rewrite head_reverse. apply Hl'.
Qed.

End StringFacts.

Example py_decodes_targets :
  TARGET_CATEGORIES
  = [[0x7814; 0x7A76; 0x524D; 0x6CBF]; [0x4EA7; 0x4E1A; 0x5E94; 0x7528];
     [0x653F; 0x7B56; 0x8BA1; 0x5212]]
  ∧ OTHER = [0x5176; 0x4ED6].
Proof. done. Qed.

Example strip_ideographic_space :
  strip (0x3000 :: py " 政策计划 " ++ [0xA]) = py "政策计划".
Proof. vm_compute. done. Qed.

Example contains_verbose_label :
  contains (py "这属于研究前沿类") (py "研究前沿") = true
  ∧ contains (py "研究  前沿") (py "研究前沿") = false.
Proof. vm_compute. done. Qed.

(** ** Normalization of the classifier's label *)

Lemma target_visible t :
  t ∈ TARGET_CATEGORIES →
  ∃ c c', head t = Some c ∧ is_space c = false
          ∧ last t = Some c' ∧ is_space c' = false.
Proof.
  unfold TARGET_CATEGORIES. rewrite !elem_of_cons, elem_of_nil.
  intros [->|[->|[->|[]]]]; do 2 eexists; repeat split; reflexivity.
Qed.

Lemma OTHER_not_target : OTHER ∉ TARGET_CATEGORIES.
Proof. apply (bool_decide_eq_false_1 (OTHER ∈ TARGET_CATEGORIES)). reflexivity. Qed.

Lemma target_in_stripped t label :
  t ∈ TARGET_CATEGORIES → infix_of t (strip label) ↔ infix_of t label.
Proof.
  intros (c & c' & Hc & Hsp & Hc' & Hsp')%target_visible.
  by apply strip_infix with c c'.
Qed.

Lemma first_target_spec targets category r :
  first_target targets category = r ↔
    (∃ earlier later, targets = earlier ++ r :: later
       ∧ contains category r = true
       ∧ ∀ u, u ∈ earlier → contains category u = false)
    ∨ (r = OTHER ∧ ∀ u, u ∈ targets → contains category u = false).
Proof.
  induction targets as [|t ts IH]; simpl.
  - split.
    + intros <-. right. split; [done|]. by intros u ?%elem_of_nil.
    + intros [(earlier & later & H & _)|[-> _]]; [|done].
      by destruct earlier.
  - destruct (contains category t) eqn:Ht.
    + split.
      * intros <-. left. exists [], ts. split_and!; [done..|].
        by intros u ?%elem_of_nil.
      * intros [(earlier & later & H & Hr & He)|[_ Hn]].
        -- destruct earlier as [|e earlier]; simplify_eq/=; [done|].
           rewrite He in Ht; [done|]. apply elem_of_cons; by left.
        -- rewrite Hn in Ht; [done|]. apply elem_of_cons; by left.
    + rewrite IH. split.
      * intros [(earlier & later & -> & Hr & He)|[-> Hn]].
        -- left. exists (t :: earlier), later. split_and!; [done..|].
           intros u [->|?]%elem_of_cons; auto.
        -- right. split; [done|]. intros u [->|?]%elem_of_cons; auto.
      * intros [(earlier & later & H & Hr & He)|[-> Hn]].
        -- destruct earlier as [|e earlier]; simplify_eq/=; [congruence|].
           left. exists earlier, later. split_and!; [done..|].
           intros u Hu. apply He, elem_of_cons. by right.
        -- right. split; [done|]. intros u Hu.
           apply Hn, elem_of_cons. by right.
Qed.

Lemma target_at_position (targets earlier later : list pystr) t :
  targets = earlier ++ t :: later → t ∈ targets.
Proof. intros ->. apply elem_of_app. right. apply elem_of_cons. by left. Qed.

Lemma target_not_in_empty t : t ∈ TARGET_CATEGORIES → ¬ infix_of t [].
Proof.
  intros (c & _ & [t' ->]%head_Some & _)%target_visible (a & b & H).
  by destruct a.
Qed.

Lemma normalizes_inv label r :
  normalizes label r →
  (r = OTHER ∧ (label = None ∨ label = Some []))
  ∨ (∃ L earlier later,
       label = Some L ∧ L ≠ [] ∧ TARGET_CATEGORIES = earlier ++ r :: later
       ∧ infix_of r L ∧ ∀ u, u ∈ earlier → ¬ infix_of u L)
  ∨ (∃ L, label = Some L ∧ L ≠ [] ∧ r = OTHER
       ∧ ∀ u, u ∈ TARGET_CATEGORIES → ¬ infix_of u L).
Proof.
  destruct 1 as [| |L earlier later t HL Ht Hinf He|L HL Hn].
  - left. eauto.
  - left. eauto.
  - right. left. exists L, earlier, later. eauto.
  - right. right. exists L. eauto.
Qed.

Lemma normalize_nonempty x l :
  _normalize_category (Some (x :: l))
  = first_target TARGET_CATEGORIES (strip (x :: l)).
Proof. reflexivity. Qed.

(** C2. [_normalize_category] is the normalization the specification
    describes: a missing or empty label gives "other"; otherwise the result is
    the first target name, in the fixed order, that occurs in the label, and
    "other" when none occurs.  Stripping the label first changes nothing about
    which target names occur in it.  Hence the result is a target category
    exactly when the label contains a target name, the returned name does
    occur in the label, and the result is "other" exactly when no target name
    occurs. *)
Theorem normalize_category_correct (label : option pystr) :
  (∀ r, _normalize_category label = r ↔ normalizes label r)
  ∧ (∀ L t, t ∈ TARGET_CATEGORIES → infix_of t (strip L) ↔ infix_of t L)
  ∧ (∀ t, t ∈ TARGET_CATEGORIES → _normalize_category label = t →
       ∃ L, label = Some L ∧ infix_of t L)
  ∧ (_normalize_category label ∈ TARGET_CATEGORIES ↔
       ∃ L t, label = Some L ∧ t ∈ TARGET_CATEGORIES ∧ infix_of t L)
  ∧ (_normalize_category label = OTHER ↔
       ∀ L t, label = Some L → t ∈ TARGET_CATEGORIES → ¬ infix_of t L).
Proof.
  assert (Hrel : ∀ r, _normalize_category label = r ↔ normalizes label r).
  { intros r. split.
    - destruct label as [[|x l]|];
        [intros <-; apply normalizes_empty| |intros <-; apply normalizes_missing].
      rewrite normalize_nonempty.
      + intros [(earlier & later & Ht & Hr & He)|[-> Hn]]%first_target_spec.
        * assert (Hin : r ∈ TARGET_CATEGORIES) by (eapply target_at_position, Ht).
          apply normalizes_first with earlier later; [done|done|..].
          -- by apply (target_in_stripped r (x :: l)), contains_infix.
          -- intros u Hu Hinf. specialize (He u Hu).
             apply contains_false in He. apply He.
             apply target_in_stripped; [|done].
             rewrite Ht. apply elem_of_app. by left.
        * apply normalizes_no_match; [done|].
          intros u Hu Hinf. specialize (Hn u Hu).
          apply contains_false in Hn. apply Hn.
          by apply target_in_stripped.
    - intros H. destruct H as [| |L earlier later t HL Ht Hinf He|L HL Hn];
        [done|done|..].
      + destruct L as [|x l]; [done|]. rewrite normalize_nonempty.
        assert (Hin : t ∈ TARGET_CATEGORIES) by (eapply target_at_position, Ht).
        apply first_target_spec. left. exists earlier, later.
        split_and!; [done|..].
        * by apply contains_infix, target_in_stripped.
        * intros u Hu. apply contains_false. intros Hu'.
          assert (HuT : u ∈ TARGET_CATEGORIES).
          { rewrite Ht. apply elem_of_app. by left. }
          by apply (He u Hu), (target_in_stripped u (x :: l) HuT).
      + destruct L as [|x l]; [done|]. rewrite normalize_nonempty.
        apply first_target_spec. right. split; [done|].
        intros u Hu. apply contains_false. intros Hinf.
        by apply (Hn u Hu), (target_in_stripped u (x :: l) Hu). }
  assert (Hsound : ∀ t, t ∈ TARGET_CATEGORIES → _normalize_category label = t →
                        ∃ L, label = Some L ∧ infix_of t L).
  { intros t Ht Heq. apply Hrel, normalizes_inv in Heq.
    destruct Heq as [[-> _]|[(L & e & l & -> & _ & _ & Hinf & _)|
                             (L & _ & _ & -> & _)]];
      [by destruct OTHER_not_target|eauto|by destruct OTHER_not_target]. }
  split_and!; [done|intros L t; apply target_in_stripped|done|..].
  - split.
    + intros Hin. destruct (Hsound _ Hin eq_refl) as (L & -> & Hinf). eauto.
    + intros (L & t & -> & Ht & Hinf).
      pose proof (proj1 (Hrel _) eq_refl) as Hn. apply normalizes_inv in Hn.
      destruct Hn as [[_ [?|[= ->]]]|[(L' & e & l & [= <-] & _ & Heq & _)|
                                      (L' & [= <-] & _ & _ & Hn)]].
      * done.
      * by destruct (target_not_in_empty t).
      * eapply target_at_position, Heq.
      * by destruct (Hn t).
  - split.
    + intros Heq L t -> Ht Hinf. apply Hrel, normalizes_inv in Heq.
      destruct Heq as [[_ [?|[= ->]]]|[(L' & e & l & [= <-] & _ & Heq & _)|
                                       (L' & [= <-] & _ & _ & Hn)]].
      * done.
      * by destruct (target_not_in_empty t).
      * destruct OTHER_not_target. eapply target_at_position, Heq.
      * by destruct (Hn t).
    + intros Hn. apply Hrel.
      destruct label as [[|x l]|];
        [apply normalizes_empty| |apply normalizes_missing].
      apply normalizes_no_match; [done|]. intros u Hu. by apply (Hn (x :: l)).
Qed.

(** ** The gatekeeper pipeline *)

Lemma first_target_range targets category :
  first_target targets category ∈ targets
  ∨ first_target targets category = OTHER.
Proof.
  induction targets as [|t ts IH]; simpl; [by right|].
  destruct (contains category t).
  - left. apply elem_of_cons. by left.
  - destruct IH as [IH|IH]; [left|by right]. apply elem_of_cons. by right.
Qed.

Lemma normalize_range label :
  (_normalize_category label ∈ TARGET_CATEGORIES)
  ∨ _normalize_category label = OTHER.
Proof.
  destruct label as [[|x l]|]; [by right| |by right].
  rewrite normalize_nonempty. apply first_target_range.
Qed.

Lemma extracted_app l1 l2 : extracted (l1 ++ l2) = extracted l1 ++ extracted l2.
Proof.
  induction l1 as [|[c|c k] l1 IH]; simpl; [done|done|by rewrite IH].
Qed.

Lemma classified_app l1 l2 :
  classified (l1 ++ l2) = classified l1 ++ classified l2.
Proof.
  induction l1 as [|[c|c k] l1 IH]; simpl; [done|by rewrite IH|done].
Qed.

Lemma extract_metadata_keys metadata fallback k :
  k ≠ "raw_content"%string → k ≠ "release_time"%string →
  k ≠ "source_institution"%string → k ≠ "url"%string →
  _extract_metadata metadata fallback !! k = None.
Proof.
  intros. destruct metadata; unfold _extract_metadata, metadata_fields;
    by rewrite !lookup_insert_ne, lookup_empty.
Qed.

Section PipelineFacts.

Context {LM : Type}.
Variable classifier : pystr → LM → option pystr * LM.
Variable extractor : pystr → pystr → LM → Extraction * LM.

(** The two ways [forward] ends, with the world it leaves behind. *)
Lemma forward_cases content metadata (w : World LM) :
  let label := (classifier content (lm w)).1 in
  let lm1 := (classifier content (lm w)).2 in
  let cat := _normalize_category label in
  let e := (extractor content cat lm1).1 in
  let lm2 := (extractor content cat lm1).2 in
  ((cat ∉ TARGET_CATEGORIES)
   ∧ forward classifier extractor content metadata w
     = (inr None, mkWorld lm1 (calls w ++ [ClassifierCall content]) (sink w)))
  ∨ (cat ∈ TARGET_CATEGORIES
     ∧ forward classifier extractor content metadata w
       = (inr (Some (dict_update
                  (<["category" := Some cat]>
                   (<["title" := Some (strip (title e))]>
                   (<["short_summary" := Some (strip (short_summary e))]>
                   (<["detailed_summary" :=
                        Some (strip (detailed_summary e))]> ∅))))
                  (_extract_metadata metadata content))),
          mkWorld lm2
            ((calls w ++ [ClassifierCall content])
               ++ [ExtractorCall content cat])
            (sink w))).
Proof.
  unfold forward, bind, call_classifier, ret.
  destruct (classifier content (lm w)) as [label lm1]; simpl.
  destruct (decide (_normalize_category label ∈ TARGET_CATEGORIES)) as [Hin|Hout].
  - right. split; [done|]. rewrite bool_decide_eq_true_2 by done. simpl.
    unfold call_extractor; simpl.
    by destruct (extractor content (_normalize_category label) lm1).
  - left. split; [done|]. by rewrite bool_decide_eq_false_2 by done.
Qed.

(** The fields of an accepted article's record. *)
Lemma forward_accepted content metadata (w w' : World LM) record :
  forward classifier extractor content metadata w = (inr (Some record), w') →
  let cat := _normalize_category (classifier content (lm w)).1 in
  let e := (extractor content cat (classifier content (lm w)).2).1 in
  cat ∈ TARGET_CATEGORIES
  ∧ record !! "category" = Some (Some cat)
  ∧ record !! "title" = Some (Some (strip (title e)))
  ∧ record !! "short_summary" = Some (Some (strip (short_summary e)))
  ∧ record !! "detailed_summary" = Some (Some (strip (detailed_summary e)))
  ∧ (∀ k, is_Some (_extract_metadata metadata content !! k) →
          record !! k = _extract_metadata metadata content !! k)
  ∧ calls w' = calls w ++ [ClassifierCall content; ExtractorCall content cat]
  ∧ sink w' = sink w.
Proof.
  intros Hrun. simpl.
  destruct (forward_cases content metadata w) as [[_ Heq]|[Hin Heq]];
    rewrite Heq in Hrun; [done|].
  injection Hrun as <- <-. unfold dict_update. simpl.
  split_and!; [done|..].
  - rewrite lookup_union_r by (by apply extract_metadata_keys).
    by simplify_map_eq.
  - rewrite lookup_union_r by (by apply extract_metadata_keys).
    by simplify_map_eq.
  - rewrite lookup_union_r by (by apply extract_metadata_keys).
    by simplify_map_eq.
  - rewrite lookup_union_r by (by apply extract_metadata_keys).
    by simplify_map_eq.
  - intros k [v Hv]. rewrite Hv. by apply lookup_union_Some_l.
  - by rewrite <- app_assoc.
  - done.
Qed.

(** C1. Every invocation of [forward] returns, without raising.  It returns
    a record exactly when the normalized category is one of the three target
    categories.  When the normalized category is not a target (it is then
    "other"), the result is [None], the only model call made is the one
    classifier call, and the extractor has not been invoked.  A returned record
    carries the normalized category, which is never "other". *)
Theorem forward_gate content metadata (w : World LM) :
  let category := _normalize_category (classifier content (lm w)).1 in
  ∃ r w',
    forward classifier extractor content metadata w = (inr r, w')
    ∧ (is_Some r ↔ category ∈ TARGET_CATEGORIES)
    ∧ (category ∈ TARGET_CATEGORIES ∨ category = OTHER)
    ∧ (category ∉ TARGET_CATEGORIES →
         category = OTHER ∧ r = None
         ∧ calls w' = calls w ++ [ClassifierCall content]
         ∧ extracted (calls w') = extracted (calls w))
    ∧ (category = OTHER →
         r = None ∧ extracted (calls w') = extracted (calls w))
    ∧ (∀ record, r = Some record →
         record !! "category" = Some (Some category) ∧ category ≠ OTHER
         ∧ extracted (calls w')
           = extracted (calls w) ++ [(content, category)]).
Proof.
  intros category.
  pose proof (normalize_range (classifier content (lm w)).1) as Hrange.
  fold category in Hrange.
  destruct (forward_cases content metadata w) as [[Hout Heq]|[Hin Heq]];
    fold category in Hout || fold category in Hin.
  - eexists _, _. split; [exact Heq|]. simpl.
    assert (Hex : extracted (calls w ++ [ClassifierCall content])
                  = extracted (calls w)).
    { rewrite extracted_app. simpl. by rewrite app_nil_r. }
    split_and!; [|done|..].
    + split; [by intros [? ?]|done].
    + intros _. by destruct Hrange.
    + done.
    + done.
  - eexists _, _. split; [exact Heq|].
    destruct (forward_accepted content metadata w _ _ Heq)
      as (_ & Hcat & _).
    fold category in Hcat. simpl.
    split_and!; [|done|..].
    + split; [done|]. intros _. by eexists.
    + done.
    + intros Hother. destruct OTHER_not_target. by rewrite <- Hother.
    + intros record [= <-]. split_and!; [done|..].
      * intros Hother. destruct OTHER_not_target. by rewrite <- Hother.
      * rewrite !extracted_app. simpl. by rewrite app_nil_r.
Qed.

(** An accepted article does get a record. *)
Lemma forward_accepts content metadata (w : World LM) :
  _normalize_category (classifier content (lm w)).1 ∈ TARGET_CATEGORIES →
  ∃ record w',
    forward classifier extractor content metadata w = (inr (Some record), w').
Proof.
  intros Hin.
  destruct (forward_cases content metadata w) as [[Hout _]|[_ Heq]];
    [done|eauto].
Qed.

(** C6. In the record [forward] assembles for an accepted article, the
    title, the short summary and the detailed summary are strings with no
    whitespace character at either end, whatever the extractor returned. *)
Theorem forward_fields_trimmed content metadata (w : World LM) :
  _normalize_category (classifier content (lm w)).1 ∈ TARGET_CATEGORIES →
  ∃ record w' t s d,
    forward classifier extractor content metadata w = (inr (Some record), w')
    ∧ record !! "title" = Some (Some t)
    ∧ record !! "short_summary" = Some (Some s)
    ∧ record !! "detailed_summary" = Some (Some d)
    ∧ trimmed t ∧ trimmed s ∧ trimmed d.
Proof.
  intros (record & w' & Hrun)%(forward_accepts content metadata).
  destruct (forward_accepted _ _ _ _ _ Hrun) as (_ & _ & Ht & Hs & Hd & _).
  eexists record, w', _, _, _.
  split_and!; [exact Hrun|exact Ht|exact Hs|exact Hd|..]; apply strip_trimmed.
Qed.

(** C8. For an accepted article, [forward] without metadata returns a record
    whose [raw_content] is the input content and whose [release_time],
    [source_institution] and [url] are [None].  With a [NewsMetadata] the four
    fields of the record are the four fields of the metadata; with a mapping
    they are what the mapping holds ([None] where it has no entry, and the
    input content where it has no [raw_content]). *)
Theorem forward_metadata content metadata (w : World LM) :
  _normalize_category (classifier content (lm w)).1 ∈ TARGET_CATEGORIES →
  ∃ record w',
    forward classifier extractor content metadata w = (inr (Some record), w')
    ∧ match metadata with
      | MetaNone =>
          record !! "raw_content" = Some (Some content)
          ∧ record !! "release_time" = Some None
          ∧ record !! "source_institution" = Some None
          ∧ record !! "url" = Some None
      | MetaData m =>
          record !! "raw_content" = Some (raw_content m)
          ∧ record !! "release_time" = Some (release_time m)
          ∧ record !! "source_institution" = Some (source_institution m)
          ∧ record !! "url" = Some (url m)
      | MetaMapping d =>
          record !! "raw_content"
            = Some (dict_get_default d "raw_content" (Some content))
          ∧ record !! "release_time" = Some (dict_get d "release_time")
          ∧ record !! "source_institution"
            = Some (dict_get d "source_institution")
          ∧ record !! "url" = Some (dict_get d "url")
      end.
Proof.
  intros (record & w' & Hrun)%(forward_accepts content metadata).
  destruct (forward_accepted _ _ _ _ _ Hrun) as (_ & _ & _ & _ & _ & Hmeta & _).
  exists record, w'. split; [exact Hrun|].
  destruct metadata as [|d|m]; simpl in Hmeta;
    unfold metadata_fields, asdict, dict_get, dict_get_default in Hmeta;
    split_and!; (rewrite Hmeta; [|eexists]); by simplify_map_eq.
Qed.

End PipelineFacts.

(** ** The batch driver *)

Lemma trimmed_nonempty_head s :
  trimmed s → s ≠ [] → ∃ c s', s = c :: s' ∧ is_space c = false.
Proof.
  intros [Hh _] Hne. destruct s as [|c s']; [done|].
  exists c, s'. split; [done|]. by apply Hh.
Qed.

(** Joining two trimmed, non-empty summaries with a newline leaves no
    whitespace at either end. *)
Lemma composed_summary_trimmed sh dt :
  trimmed sh → trimmed dt → sh ≠ [] → dt ≠ [] →
  trimmed (sh ++ [0xA] ++ dt).
Proof.
  intros Hs Hd Hs0 Hd0. split; intros c.
  - destruct (trimmed_nonempty_head sh Hs Hs0) as (x & s' & -> & Hx).
    simpl. by intros [= <-].
  - rewrite app_assoc, last_app. destruct Hd as [_ Hl].
    destruct (last dt) as [y|] eqn:Hy; [|by apply last_None in Hy].
    intros [= <-]. by apply Hl.
Qed.

Section DriverFacts.

Context {LM : Type}.
Variable classifier : pystr → LM → option pystr * LM.
Variable extractor : pystr → pystr → LM → Extraction * LM.

(** C9. A record whose [raw_content] (the empty string when the key is
    missing) strips to the empty string is skipped: the loop continues with
    the rest of the batch in the same world and with the same counter, so
    the pipeline is not invoked for it and nothing is written. *)
Theorem blank_content_skipped
    (pipeline : pystr → MetadataArg → M LM (option Dict))
    (record : Dict) (rest : list Dict) (written : nat) (content : pystr)
    (w : World LM) :
  dict_get_default record "raw_content" (Some []) = Some content →
  strip content = [] →
  process_loop pipeline (record :: rest) written w
  = process_loop pipeline rest written w.
Proof. intros Hget Hblank. simpl. by rewrite Hget, Hblank. Qed.

(** Over a whole batch, the classifier is only ever invoked on content that
    does not strip to the empty string. *)
Lemma classifier_sees_no_blank_content records written (w w' : World LM) r :
  process_loop (forward classifier extractor) records written w = (r, w') →
  ∃ new, calls w' = calls w ++ new
         ∧ Forall (λ c, strip c ≠ []) (classified new).
Proof.
  revert written w. induction records as [|record rest IH]; intros written w.
  - intros [= _ <-]. exists []. by rewrite app_nil_r.
  - simpl.
    destruct (dict_get_default record "raw_content" (Some [])) as [content|].
    2:{ intros [= _ <-]. exists []. by rewrite app_nil_r. }
    destruct (strip content) as [|x s] eqn:Hstrip; simpl; [apply IH|].
    unfold bind at 1.
    set (metadata := MetaData _).
    destruct (forward_cases classifier extractor content metadata w)
      as [[_ Heq]|[_ Heq]]; rewrite Heq.
    + intros (new & Hnew & Hall)%IH. simpl in Hnew.
      exists (ClassifierCall content :: new). split.
      * by rewrite Hnew, <- app_assoc.
      * simpl. constructor; [by rewrite Hstrip|done].
    + unfold bind, writer_append. simpl.
      intros (new & Hnew & Hall)%IH. simpl in Hnew.
      eexists (ClassifierCall content :: ExtractorCall content _ :: new).
      split.
      * by rewrite Hnew, <- !app_assoc.
      * simpl. constructor; [by rewrite Hstrip|done].
Qed.

(** Over a whole batch, every record appended to the sink carries one of the
    three target categories, and the counter counts the appended records. *)
Lemma sink_holds_target_categories records written (w w' : World LM) r :
  process_loop (forward classifier extractor) records written w = (r, w') →
  ∃ new, sink w' = sink w ++ new
         ∧ Forall (λ out : Dict, ∃ cat, cat ∈ TARGET_CATEGORIES
                                   ∧ out !! "category" = Some (Some cat)) new
         ∧ ∀ n, r = inr n → n = (written + length new)%nat.
Proof.
  revert written w. induction records as [|record rest IH]; intros written w.
  - intros [= <- <-]. exists []. rewrite app_nil_r. split_and!; [done..|].
    intros n [= <-]. simpl. lia.
  - simpl.
    destruct (dict_get_default record "raw_content" (Some [])) as [content|].
    2:{ intros [= <- <-]. exists []. rewrite app_nil_r. by split_and!. }
    destruct (strip content) as [|x s] eqn:Hstrip; simpl; [apply IH|].
    unfold bind at 1.
    set (metadata := MetaData _).
    destruct (forward_cases classifier extractor content metadata w)
      as [[_ Heq]|[Hin Heq]].
    + rewrite Heq. by intros H%IH.
    + destruct (forward_accepted _ _ _ _ _ _ _ Heq) as (_ & Hcat & _).
      rewrite Heq. unfold bind, writer_append. simpl.
      intros (new & Hnew & Hall & Hcount)%IH. simpl in Hnew.
      eexists (_ :: new). split_and!.
      * by rewrite Hnew, <- app_assoc.
      * constructor; [|done]. eexists. split; [exact Hin|].
        destruct (truthy _ && truthy _); [|exact Hcat].
        rewrite lookup_insert_ne by done. exact Hcat.
      * intros n Hn. rewrite (Hcount n Hn). simpl. lia.
Qed.


End DriverFacts.

(** ** The optimizer *)

Lemma py_eq_to_json v j : py_eq v j = true ↔ to_json v = j.
Proof.
  destruct v as [s|], j as [|b|n|s'|l|f]; simpl; try (split; done).
  rewrite bool_decide_eq_true. split; [by intros ->|by intros [= ->]].
Qed.

Lemma truthy_nonempty v : truthy v = true ↔ ∃ s, v = Some s ∧ s ≠ [].
Proof.
  destruct v as [[|c s]|]; simpl.
  - split; [done|]. by intros (s & [= <-] & ?).
  - split; [|done]. intros _. by exists (c :: s).
  - split; [done|]. by intros (s & [=] & _).
Qed.

(** [_safe_get] turns the attribute error of a missing field into [None]. *)
Lemma safe_get_lacking pred field :
  lacks pred field → _safe_get pred field = None.
Proof.
  destruct pred as [|d|attrs]; simpl; [done|..].
  - unfold dict_get. by intros ->.
  - by intros ->.
Qed.

Lemma getattr_None_raises field : py_getattr PredNone field = inl AttributeError.
Proof. reflexivity. Qed.

(** Without a predicted category the metric can only hold against a gold
    category that is itself [None]. *)
Lemma metric_lacking_category gold pred :
  lacks pred "category" → category gold ≠ JNull →
  evaluation_metric gold pred = false.
Proof.
  intros Hl Hg. unfold evaluation_metric.
  rewrite (safe_get_lacking _ _ Hl). simpl.
  by destruct (category gold).
Qed.

(** [_safe_get] reads what the prediction holds, for a dict and for an
    object alike. *)
Lemma safe_get_predicted pred field : _safe_get pred field = predicted pred field.
Proof.
  destruct pred as [|d|attrs]; simpl; [done|..].
  - unfold dict_get. by destruct (d !! field) as [[?|]|].
  - by destruct (attrs !! field) as [[?|]|].
Qed.

(** C7. For every gold example and every prediction (a dict, an object with
    attributes, or [None]) the metric is true exactly when the category the
    prediction holds equals the gold category and the detailed summary it
    holds is a non-empty string.  It reads nothing else: the other fields of
    the gold example, and the [title] and [short_summary] entries of a
    prediction, do not change its value. *)
Theorem evaluation_metric_spec (gold : Example) (pred : Pred) :
  (evaluation_metric gold pred = true ↔
     to_json (predicted pred "category") = category gold
     ∧ ∃ s, predicted pred "detailed_summary" = Some s ∧ s ≠ [])
  ∧ (∀ c t s d i,
       evaluation_metric (mkExample c (category gold) t s d i) pred
       = evaluation_metric gold pred)
  ∧ (∀ (d : Dict) v,
       evaluation_metric gold (PredDict (<["title" := v]> d))
       = evaluation_metric gold (PredDict d)
       ∧ evaluation_metric gold (PredDict (<["short_summary" := v]> d))
         = evaluation_metric gold (PredDict d)
       ∧ evaluation_metric gold (PredObj (<["title" := v]> d))
         = evaluation_metric gold (PredObj d)
       ∧ evaluation_metric gold (PredObj (<["short_summary" := v]> d))
         = evaluation_metric gold (PredObj d)).
Proof.
  split_and!.
  - unfold evaluation_metric.
    by rewrite andb_true_iff, py_eq_to_json, truthy_nonempty,
      !safe_get_predicted.
  - done.
  - intros d v. unfold evaluation_metric, _safe_get, py_getattr, dict_get.
    by rewrite !lookup_insert_ne.
Qed.

(** C10. On a prediction with no detailed summary (in particular on the
    [None] of a gated article, which has no field at all) [_safe_get] yields
    [None] where plain attribute access would raise, and the metric is
    [false]. *)
Theorem metric_false_on_rejected (gold : Example) (pred : Pred) :
  lacks pred "detailed_summary" →
  _safe_get pred "detailed_summary" = None
  ∧ (lacks pred "category" → _safe_get pred "category" = None)
  ∧ evaluation_metric gold pred = false.
Proof.
  intros Hl. split_and!.
  - by apply safe_get_lacking.
  - apply safe_get_lacking.
  - unfold evaluation_metric. rewrite (safe_get_lacking _ _ Hl). simpl.
    apply andb_false_r.
Qed.

Section CompileFacts.

Context {LM : Type}.
Variable classifier : pystr → LM → option pystr * LM.
Variable extractor : pystr → pystr → LM → Extraction * LM.

(** The loader raises nothing on an empty list: it returns the empty training
    set. *)
Lemma empty_list_loads : load_training_examples (Holds (JArr [])) = inr [].
Proof. reflexivity. Qed.




(** C3.  When the example file is missing, [main] raises [FileNotFoundError]
    and leaves the world as it found it: no model has been invoked.  The
    same holds for every error of the loader, whatever the bootstrapper.  On
    an empty example set the loader itself raises nothing and returns the
    empty training set; it is [compile] that fails, again before any model
    invocation. *)
Theorem missing_or_empty_source_fails (w : World LM) :
  main classifier extractor compile Absent w = (inl FileNotFoundError, w)
  ∧ (∀ path,
       load_training_examples path = inr [] →
       main classifier extractor compile path w
       = (inl ConfigurationError, w))
  ∧ (∀ Compiled
       (teleprompter_compile :
          BootstrapFewShot → (pystr → MetadataArg → M LM (option Dict)) →
          list Example → M LM Compiled) path e,
       load_training_examples path = inl e →
       main classifier extractor teleprompter_compile path w = (inl e, w))
  ∧ load_training_examples (Holds (JArr [])) = inr [].
Proof.
  split_and!; [done| | |done].
  - intros path Hload. unfold main. by rewrite Hload.
  - intros Compiled tc path e Hload. unfold main. by rewrite Hload.
Qed.


End CompileFacts.

(** ** Concrete runs *)

Lemma policy_label_accepted :
  _normalize_category (Some Scenario.policy_label) ∈ TARGET_CATEGORIES.
Proof. apply (bool_decide_unpack _). vm_compute. exact I. Qed.

Lemma gossip_label_rejected :
  _normalize_category (Some Scenario.gossip_label) ∉ TARGET_CATEGORIES.
Proof. apply (bool_decide_unpack _). vm_compute. exact I. Qed.

Lemma normalize_category_correct_witness :
  normalizes (Some Scenario.policy_label) (py "政策计划").
Proof.
  apply (proj1 (normalize_category_correct (Some Scenario.policy_label))).
  vm_compute; reflexivity.
Defined.

Lemma forward_gate_witness :
  ∃ w',
    forward (Scenario.fixed_classifier (Some Scenario.gossip_label))
      (Scenario.fixed_extractor Scenario.padded)
      Scenario.article MetaNone Scenario.w0
    = (inr None, w')
    ∧ extracted (calls w') = extracted (calls Scenario.w0).
Proof.
  destruct (forward_gate
              (Scenario.fixed_classifier (Some Scenario.gossip_label))
              (Scenario.fixed_extractor Scenario.padded)
              Scenario.article MetaNone Scenario.w0)
    as (r & w' & Hrun & _ & _ & Hout & _).
  destruct (Hout gossip_label_rejected) as (_ & -> & _ & Hcalls).
  by exists w'.
Defined.

Lemma forward_fields_trimmed_witness :
  ∃ record w' t s d,
    forward (Scenario.fixed_classifier (Some Scenario.policy_label))
      (Scenario.fixed_extractor Scenario.padded)
      Scenario.article MetaNone Scenario.w0
    = (inr (Some record), w')
    ∧ record !! "title" = Some (Some t)
    ∧ record !! "short_summary" = Some (Some s)
    ∧ record !! "detailed_summary" = Some (Some d)
    ∧ trimmed t ∧ trimmed s ∧ trimmed d.
Proof.
  apply (forward_fields_trimmed
           (Scenario.fixed_classifier (Some Scenario.policy_label))
           (Scenario.fixed_extractor Scenario.padded)
           Scenario.article MetaNone Scenario.w0).
  exact policy_label_accepted.
Defined.

Lemma forward_metadata_witness :
  ∃ record w',
    forward (Scenario.fixed_classifier (Some Scenario.policy_label))
      (Scenario.fixed_extractor Scenario.padded)
      Scenario.article (MetaData Scenario.metadata_A) Scenario.w0
    = (inr (Some record), w')
    ∧ record !! "raw_content" = Some (Some Scenario.article)
    ∧ record !! "release_time" = Some None
    ∧ record !! "source_institution" = Some (Some Scenario.ministry)
    ∧ record !! "url" = Some None.
Proof.
  apply (forward_metadata
           (Scenario.fixed_classifier (Some Scenario.policy_label))
           (Scenario.fixed_extractor Scenario.padded)
           Scenario.article (MetaData Scenario.metadata_A) Scenario.w0).
  exact policy_label_accepted.
Defined.

Lemma blank_content_skipped_witness :
  process_loop
    (forward (Scenario.fixed_classifier (Some Scenario.policy_label))
       (Scenario.fixed_extractor Scenario.padded))
    [Scenario.record_blank; Scenario.record_A] 0 Scenario.w0
  = process_loop
      (forward (Scenario.fixed_classifier (Some Scenario.policy_label))
         (Scenario.fixed_extractor Scenario.padded))
      [Scenario.record_A] 0 Scenario.w0.
Proof.
  apply (blank_content_skipped _ Scenario.record_blank [Scenario.record_A] 0
           [0x20; 0x3000; 0xA] Scenario.w0);
    vm_compute; reflexivity.
Defined.


(** Scenario A: a verbose policy label is accepted, the extractor is invoked
    once, and the source institution reaches the written record; the written
    detailed summary is the trimmed short summary, a newline, and the trimmed
    detailed summary. *)
Example scenario_A :
  let run :=
    process_records
      (forward (Scenario.fixed_classifier (Some Scenario.policy_label))
         (Scenario.fixed_extractor Scenario.padded))
      [Scenario.record_A] Scenario.w0 in
  run.1 = inr 1%nat
  ∧ extracted (calls run.2) = [(Scenario.article, py "政策计划")]
  ∧ (λ out, out !! "source_institution") <$> sink run.2
    = [Some (Some Scenario.ministry)]
  ∧ (λ out, out !! "detailed_summary") <$> sink run.2
    = [Some (Some (py "看点" ++ [0xA] ++ Scenario.points))].
Proof. vm_compute. done. Qed.

(** Scenario B: an out-of-scope label is rejected and the extractor is never
    invoked. *)
Example scenario_B :
  forward (Scenario.fixed_classifier (Some Scenario.gossip_label))
    (Scenario.fixed_extractor Scenario.padded)
    Scenario.article MetaNone Scenario.w0
  = (inr None, mkWorld tt [ClassifierCall Scenario.article] []).
Proof. vm_compute. done. Qed.

(** Scenario C: with an empty short summary the detailed summary is written
    as it is, with no leading newline. *)
Example scenario_C :
  let run :=
    process_records
      (forward (Scenario.fixed_classifier (Some Scenario.policy_label))
         (Scenario.fixed_extractor Scenario.no_short))
      [Scenario.record_A] Scenario.w0 in
  (λ out, out !! "detailed_summary") <$> sink run.2
  = [Some (Some Scenario.points)].
Proof. vm_compute. done. Qed.

Lemma evaluation_metric_spec_witness :
  evaluation_metric (Scenario.example_of (py "政策计划"))
    (PredObj (<["category" := Some (py "政策计划")]>
             (<["title" := None]>
             (<["detailed_summary" := Some Scenario.points]> ∅))))
  = true
  ∧ evaluation_metric (Scenario.example_of (py "政策计划"))
      (PredDict (<["category" := Some (py "政策计划")]>
                (<["detailed_summary" := Some Scenario.points]> ∅)))
    = true.
Proof.
  split; apply (proj1 (evaluation_metric_spec _ _)); split;
    try (vm_compute; reflexivity);
    exists Scenario.points; (split; [vm_compute; reflexivity|discriminate]).
Defined.

Lemma metric_false_on_rejected_witness :
  _safe_get (as_pred None) "detailed_summary" = None
  ∧ (lacks (as_pred None) "category" →
     _safe_get (as_pred None) "category" = None)
  ∧ evaluation_metric (Scenario.example_of (py "政策计划")) (as_pred None)
    = false.
Proof.
  apply (metric_false_on_rejected (Scenario.example_of (py "政策计划"))
           (as_pred None)).
  exact I.
Defined.

Lemma missing_or_empty_source_fails_witness :
  main (Scenario.fixed_classifier (Some Scenario.policy_label))
    (Scenario.fixed_extractor Scenario.padded) compile
    (Holds (JArr [])) Scenario.w0
  = (inl ConfigurationError, Scenario.w0)
  ∧ main (Scenario.fixed_classifier (Some Scenario.policy_label))
      (Scenario.fixed_extractor Scenario.padded) compile
      Malformed Scenario.w0
    = (inl JSONDecodeError, Scenario.w0).
Proof.
  split.
  - apply (proj1 (proj2 (missing_or_empty_source_fails
             (Scenario.fixed_classifier (Some Scenario.policy_label))
             (Scenario.fixed_extractor Scenario.padded) Scenario.w0))).
    reflexivity.
  - apply (proj1 (proj2 (proj2 (missing_or_empty_source_fails
             (Scenario.fixed_classifier (Some Scenario.policy_label))
             (Scenario.fixed_extractor Scenario.padded) Scenario.w0)))).
    reflexivity.
Defined.



(** Scenario D: of two labelled examples, the one whose gold category is the
    predicted one becomes a demonstration. *)
Example scenario_D :
  (main (Scenario.fixed_classifier (Some Scenario.policy_label))
     (Scenario.fixed_extractor Scenario.padded) compile
     Scenario.two_examples Scenario.w0).1
  = inr [Scenario.example_of (py "政策计划")].
Proof. vm_compute. done. Qed.

(** * Further properties of the code *)

(** ** model.py *)

Lemma target_names_disjoint t u :
  t ∈ TARGET_CATEGORIES → u ∈ TARGET_CATEGORIES → infix_of t u → t = u.
Proof.
  unfold TARGET_CATEGORIES. rewrite !elem_of_cons, !elem_of_nil.
  intros [->|[->|[->|[]]]] [->|[->|[->|[]]]] Hinf; try reflexivity;
    apply contains_infix in Hinf; vm_compute in Hinf; discriminate.
Qed.

Lemma OTHER_holds_no_target t : t ∈ TARGET_CATEGORIES → ¬ infix_of t OTHER.
Proof.
  unfold TARGET_CATEGORIES. rewrite !elem_of_cons, !elem_of_nil.
  intros [->|[->|[->|[]]]] Hinf;
    apply contains_infix in Hinf; vm_compute in Hinf; discriminate.
Qed.

(** X1. No target category name occurs inside another one or inside
    "other", so a label that is exactly a category name normalizes to itself
    whatever the priority order, and normalizing an already normalized
    category changes nothing. *)
Theorem normalize_category_idempotent (label : option pystr) :
  _normalize_category (Some (_normalize_category label))
  = _normalize_category label
  ∧ (∀ t, t ∈ TARGET_CATEGORIES → _normalize_category (Some t) = t)
  ∧ (∀ t u, t ∈ TARGET_CATEGORIES → u ∈ TARGET_CATEGORIES →
            infix_of t u → t = u)
  ∧ (∀ t, t ∈ TARGET_CATEGORIES → ¬ infix_of t OTHER).
Proof.
  assert (Hfix : ∀ t, t ∈ TARGET_CATEGORIES → _normalize_category (Some t) = t).
  { intros t. unfold TARGET_CATEGORIES. rewrite !elem_of_cons, !elem_of_nil.
    by intros [->|[->|[->|[]]]]. }
  split_and!; [|done|apply target_names_disjoint|apply OTHER_holds_no_target].
  destruct (normalize_range label) as [Hin| ->]; [by apply Hfix|done].
Qed.

Section RecordFacts.

Context {LM : Type}.
Variable classifier : pystr → LM → option pystr * LM.
Variable extractor : pystr → pystr → LM → Extraction * LM.

Lemma extract_metadata_dom metadata fallback k :
  is_Some (_extract_metadata metadata fallback !! k)
  ↔ k ∈ ["raw_content"; "release_time"; "source_institution"; "url"]%string.
Proof.
  rewrite !elem_of_cons, elem_of_nil.
  destruct metadata; unfold _extract_metadata, metadata_fields;
    rewrite !lookup_insert_is_Some', lookup_empty, is_Some_alt;
    intuition (subst; auto).
Qed.

(** X2. The record of an accepted article has exactly the eight keys
    category, title, short_summary, detailed_summary, raw_content,
    release_time, source_institution and url, whatever the metadata holds:
    other entries of a metadata mapping never reach the record, and its
    category, title and summaries are the pipeline's own. *)
Theorem forward_record_keys content metadata (w : World LM) :
  _normalize_category (classifier content (lm w)).1 ∈ TARGET_CATEGORIES →
  ∃ record w',
    forward classifier extractor content metadata w = (inr (Some record), w')
    ∧ (∀ k, is_Some (record !! k) ↔ k ∈ RECORD_KEYS)
    ∧ record !! "category"
      = Some (Some (_normalize_category (classifier content (lm w)).1)).
Proof.
  intros Hin.
  destruct (forward_cases classifier extractor content metadata w)
    as [[Hout _]|[_ Heq]]; [done|].
  eexists _, _. split; [exact Heq|]. split.
  - intros k. unfold dict_update, RECORD_KEYS.
    rewrite lookup_union_is_Some, extract_metadata_dom.
    rewrite !lookup_insert_is_Some', lookup_empty, is_Some_alt.
    rewrite !elem_of_cons, elem_of_nil. intuition (subst; auto 10).
  - by destruct (forward_accepted _ _ _ _ _ _ _ Heq) as (_ & Hcat & _).
Qed.

End RecordFacts.

Lemma forward_record_keys_witness :
  ∃ record w',
    forward (Scenario.fixed_classifier (Some Scenario.policy_label))
      (Scenario.fixed_extractor Scenario.padded) Scenario.article
      (MetaMapping (<["category" := Some Scenario.gossip_label]>
                    (<["note" := Some Scenario.ministry]> ∅)))
      Scenario.w0
    = (inr (Some record), w')
    ∧ (∀ k, is_Some (record !! k) ↔ k ∈ RECORD_KEYS)
    ∧ record !! "category"
      = Some (Some (_normalize_category (Some Scenario.policy_label))).
Proof.
  apply (forward_record_keys
           (Scenario.fixed_classifier (Some Scenario.policy_label))
           (Scenario.fixed_extractor Scenario.padded) Scenario.article
           (MetaMapping (<["category" := Some Scenario.gossip_label]>
                         (<["note" := Some Scenario.ministry]> ∅)))
           Scenario.w0).
  exact policy_label_accepted.
Defined.

(** ** optimize.py *)

Lemma load_items_spec items acc trainset :
  load_items items acc = inr trainset
  ↔ ∃ new, trainset = acc ++ new ∧ Forall2 built_from items new.
Proof.
  revert acc. induction items as [|item rest IH]; intros acc; simpl.
  - split.
    + intros [= <-]. exists []. by rewrite app_nil_r.
    + intros (new & -> & ->%Forall2_nil_inv_l). by rewrite app_nil_r.
  - split.
    + destruct item as [| | | |?|fields]; simpl; try done.
      destruct (fields !! "content") as [c|] eqn:Hc; simpl; [|done].
      destruct (fields !! "category") as [k|] eqn:Hk; simpl; [|done].
      destruct (fields !! "title") as [t|] eqn:Ht; simpl; [|done].
      destruct (fields !! "short_summary") as [sh|] eqn:Hs; simpl; [|done].
      destruct (fields !! "detailed_summary") as [d|] eqn:Hd; simpl; [|done].
      intros (new & -> & Hall)%IH.
      exists (mkExample c k t sh d ["content"%string] :: new). split.
      * by rewrite <- app_assoc.
      * constructor; [|done]. by exists fields.
    + intros (new & -> & Hall).
      apply Forall2_cons_inv_l in Hall
        as (ex & new' & (fields & -> & Hc & Hk & Ht & Hs & Hd & Hi) & Hall & ->).
      simpl. rewrite Hc, Hk, Ht, Hs, Hd. simpl.
      apply IH. exists new'. split; [|done].
      rewrite <- app_assoc. simpl. destruct ex; simpl in *. by subst.
Qed.

Lemma load_holds raw_data :
  load_training_examples (Holds raw_data)
  = match raw_data with
    | JArr items => load_items items []
    | JObj _ => load_items [raw_data] []
    | JStr s => load_items (map (fun c => JStr [c]) s) []
    | JNull | JBool _ | JNum _ => inl TypeError
    end.
Proof. by destruct raw_data. Qed.

(** X3. The loader succeeds exactly when the file holds a list of objects
    that all have the five fields (or one such object, or the empty string,
    which yields no example).  The training set then has one example per
    item, in the order of the file, holding the item's five values. *)
Theorem load_training_examples_success
    (path : ExampleFile) (trainset : list Example) :
  load_training_examples path = inr trainset
  ↔ ∃ raw_data items,
      path = Holds raw_data ∧ items_of raw_data items
      ∧ Forall2 built_from items trainset.
Proof.
  unfold items_of. split.
  - destruct path as [| | |raw]; [done|done|done|]. rewrite load_holds.
    destruct raw as [| | |s|items|fields]; try done.
    + destruct s as [|c s]; [|done].
      intros [= <-]. exists (JStr []), []. split_and!; [done| |constructor].
      right. by right.
    + intros (new & -> & Hall)%load_items_spec. eauto 10.
    + intros (new & -> & Hall)%load_items_spec.
      exists (JObj fields), [JObj fields]. split_and!; [done| |done].
      right. left. eauto.
  - intros (raw & items & -> & [->|[(fields & -> & ->)|[-> ->]]] & Hall);
      rewrite load_holds.
    + apply load_items_spec. eauto.
    + apply load_items_spec. eauto.
    + by apply Forall2_nil_inv_l in Hall as ->.
Qed.

Lemma load_items_skip_good good exs tail acc :
  Forall2 built_from good exs →
  load_items (good ++ tail) acc = load_items tail (acc ++ exs).
Proof.
  intros Hall. revert acc.
  induction Hall as [|item ex good exs (fields & -> & Hc & Hk & Ht & Hs & Hd & Hi)
                      _ IH]; intros acc; simpl.
  - by rewrite app_nil_r.
  - rewrite Hc, Hk, Ht, Hs, Hd. simpl. rewrite IH, <- app_assoc. simpl.
    destruct ex; simpl in *. by subst.
Qed.

Lemma item_error_raised item rest acc e :
  item_error item = Some e → load_items (item :: rest) acc = inl e.
Proof.
  destruct item as [| | | |?|fields]; simpl; try (by intros [= <-]).
  destruct (fields !! "content"); simpl; [|by intros [= <-]].
  destruct (fields !! "category"); simpl; [|by intros [= <-]].
  destruct (fields !! "title"); simpl; [|by intros [= <-]].
  destruct (fields !! "short_summary"); simpl; [|by intros [= <-]].
  destruct (fields !! "detailed_summary"); simpl; [|by intros [= <-]].
  done.
Qed.

(** X4. The loader raises at the first item it cannot use, whatever follows
    it: [TypeError] when that item is not an object, [KeyError] with the first
    of content, category, title, short_summary, detailed_summary that the
    object lacks.  The examples built from the items before it are lost. *)
Theorem load_training_examples_first_error
    (good : list Json) (exs : list Example) (bad : Json) (rest : list Json)
    (e : Exn) :
  Forall2 built_from good exs →
  item_error bad = Some e →
  load_training_examples (Holds (JArr (good ++ bad :: rest))) = inl e.
Proof.
  intros Hgood Hbad. rewrite load_holds.
  rewrite (load_items_skip_good _ _ _ _ Hgood).
  by apply item_error_raised.
Qed.

Section MetricFacts.

Context {LM : Type}.
Variable classifier : pystr → LM → option pystr * LM.
Variable extractor : pystr → pystr → LM → Extraction * LM.

(** X5. The metric on what the pipeline returns for an example: it is true
    exactly when the pipeline accepts the article, the gold category is the
    string of the normalized category, and the stripped detailed summary of
    the extractor is not empty.  An example whose gold category is not one of
    the three target names can therefore never count as a success. *)
Theorem metric_on_pipeline_output
    (gold : Example) content metadata (w : World LM) :
  let cat := _normalize_category (classifier content (lm w)).1 in
  let e := (extractor content cat (classifier content (lm w)).2).1 in
  ∃ r w',
    forward classifier extractor content metadata w = (inr r, w')
    ∧ (evaluation_metric gold (as_pred r) = true
       ↔ cat ∈ TARGET_CATEGORIES ∧ category gold = JStr cat
         ∧ strip (detailed_summary e) ≠ [])
    ∧ (evaluation_metric gold (as_pred r) = true →
       ∃ t, t ∈ TARGET_CATEGORIES ∧ category gold = JStr t).
Proof.
  intros cat e.
  assert (Hmain : ∃ r w',
    forward classifier extractor content metadata w = (inr r, w')
    ∧ (evaluation_metric gold (as_pred r) = true
       ↔ cat ∈ TARGET_CATEGORIES ∧ category gold = JStr cat
         ∧ strip (detailed_summary e) ≠ [])).
  { destruct (forward_cases classifier extractor content metadata w)
      as [[Hout Heq]|[Hin Heq]].
    - eexists _, _. split; [exact Heq|]. simpl.
      unfold evaluation_metric. simpl. rewrite andb_false_r.
      split; [done|]. by intros [? _].
    - eexists _, _. split; [exact Heq|].
      destruct (forward_accepted _ _ _ _ _ _ _ Heq)
        as (_ & Hcat & _ & _ & Hd & _).
      unfold evaluation_metric, as_pred, _safe_get, dict_get.
      rewrite Hcat, Hd. cbn [default].
      rewrite andb_true_iff, py_eq_to_json, truthy_nonempty. simpl.
      split.
      + intros [Hg (s & [= <-] & Hs)]. by split_and!.
      + intros (_ & Hg & Hs). split; [done|]. eauto. }
  destruct Hmain as (r & w' & Hrun & Hiff).
  exists r, w'. split_and!; [done|done|].
  intros (Hin & Hg & _)%Hiff. eauto.
Qed.

End MetricFacts.

Lemma load_training_examples_first_error_witness :
  load_training_examples
    (Holds (JArr ([Scenario.example_item (py "政策计划")]
                  ++ JObj (<["content" := JStr Scenario.article]> ∅)
                  :: [JNull])))
  = inl (KeyError "category").
Proof.
  apply (load_training_examples_first_error
           [Scenario.example_item (py "政策计划")]
           [Scenario.example_of (py "政策计划")]).
  - constructor; [|constructor].
    eexists. split; [reflexivity|]. split_and!; vm_compute; reflexivity.
  - vm_compute; reflexivity.
Defined.

(** ** main.py *)

Lemma extract_metadata_of_dataclass (m : NewsMetadata) fallback :
  _extract_metadata (MetaData m) fallback !! "raw_content"
  = Some (raw_content m)
  ∧ _extract_metadata (MetaData m) fallback !! "release_time"
    = Some (release_time m)
  ∧ _extract_metadata (MetaData m) fallback !! "source_institution"
    = Some (source_institution m)
  ∧ _extract_metadata (MetaData m) fallback !! "url" = Some (url m).
Proof.
  unfold _extract_metadata, metadata_fields, asdict, dict_get, dict_get_default.
  split_and!.
  - by rewrite lookup_insert_eq, lookup_insert_eq.
  - rewrite lookup_insert_ne, lookup_insert_eq by done.
    by rewrite lookup_insert_ne, lookup_insert_eq by done.
  - rewrite !lookup_insert_ne, lookup_insert_eq by done.
    by rewrite !lookup_insert_ne, lookup_insert_eq by done.
  - rewrite !lookup_insert_ne, lookup_insert_eq by done.
    by rewrite !lookup_insert_ne, lookup_insert_eq by done.
Qed.

(** X6. The loop composes over concatenation, for any pipeline: a batch
    [a ++ b] is processed as [a] and then [b], from the world and with the
    counter that [a] left; when [a] raises, [b] is never looked at. *)
Theorem process_loop_app {LM : Type}
    (pipeline : pystr → MetadataArg → M LM (option Dict))
    (a b : list Dict) (written : nat) (w : World LM) :
  process_loop pipeline (a ++ b) written w
  = match process_loop pipeline a written w with
    | (inr n, w1) => process_loop pipeline b n w1
    | (inl e, w1) => (inl e, w1)
    end.
Proof.
  revert written w. induction a as [|record a IH]; intros written w; [done|].
  simpl.
  destruct (dict_get_default record "raw_content" (Some [])) as [content|];
    [|done].
  destruct (strip content) as [|x s]; simpl; [apply IH|].
  unfold bind at 1 3.
  destruct (pipeline content _ w) as [[e|[prediction|]] w1]; [done| |apply IH].
  unfold bind, writer_append. apply IH.
Qed.

Section BatchFacts.

Context {LM : Type}.
Variable classifier : pystr → LM → option pystr * LM.
Variable extractor : pystr → pystr → LM → Extraction * LM.

(** The four ways one round of the loop goes. *)
Lemma process_loop_step record rest written (w : World LM) :
  let loop := process_loop (forward classifier extractor) in
  (content_of record = None
   ∧ loop (record :: rest) written w = (inl AttributeError, w))
  ∨ (∃ content,
       content_of record = Some content ∧ strip content = []
       ∧ loop (record :: rest) written w = loop rest written w)
  ∨ (∃ content lm1,
       content_of record = Some content ∧ strip content ≠ []
       ∧ loop (record :: rest) written w
         = loop rest written
             (mkWorld lm1 (calls w ++ [ClassifierCall content]) (sink w)))
  ∨ (∃ content cat lm2 out,
       content_of record = Some content ∧ strip content ≠ []
       ∧ cat ∈ TARGET_CATEGORIES
       ∧ loop (record :: rest) written w
         = loop rest (S written)
             (mkWorld lm2
                (calls w ++ [ClassifierCall content; ExtractorCall content cat])
                (sink w ++ [out]))
       ∧ out !! "category" = Some (Some cat)
       ∧ carried record out).
Proof.
  intros loop. unfold loop, content_of. simpl.
  destruct (dict_get_default record "raw_content" (Some [])) as [content|]
    eqn:Hget; [|by left].
  right. destruct (strip content) as [|x s] eqn:Hstrip; simpl.
  { left. by exists content. }
  right.
  set (m := mkNewsMetadata _ _ _ _).
  destruct (forward_cases classifier extractor content (MetaData m) w)
    as [[_ Heq]|[Hin Heq]].
  - left. eexists content, _. split_and!; [done|by rewrite Hstrip|].
    unfold bind at 1. by rewrite Heq.
  - right.
    destruct (forward_accepted _ _ _ _ _ _ _ Heq)
      as (_ & Hcat & _ & _ & _ & Hmeta & _).
    destruct (extract_metadata_of_dataclass m content) as (H1 & H2 & H3 & H4).
    eexists content, _, _, _.
    split_and!; [done|by rewrite Hstrip|exact Hin|..].
    + unfold bind at 1. rewrite Heq. unfold bind, writer_append. simpl.
      rewrite <- app_assoc. reflexivity.
    + destruct (truthy _ && truthy _); [|exact Hcat].
      rewrite lookup_insert_ne by done. exact Hcat.
    + unfold carried, content_of. rewrite Hget.
      destruct (truthy _ && truthy _);
        rewrite ?lookup_insert_ne by done;
        (split_and!; (rewrite Hmeta; [|eexists]); eassumption).
Qed.

(** Everything one run of the loop does, by induction over the batch. *)
Lemma process_loop_summary records written (w w' : World LM) r :
  process_loop (forward classifier extractor) records written w = (r, w') →
  ∃ new_calls kept new_sink,
    calls w' = calls w ++ new_calls
    ∧ sink w' = sink w ++ new_sink
    ∧ kept `sublist_of` records
    ∧ Forall2 carried kept new_sink
    ∧ Forall has_target_category new_sink
    ∧ length (extracted new_calls) = length new_sink
    ∧ (length (classified new_calls) ≤ length records)%nat
    ∧ Forall (λ c, strip c ≠ []) (classified new_calls)
    ∧ (∀ n, r = inr n → n = (written + length new_sink)%nat)
    ∧ (∀ e, r = inl e → e = AttributeError)
    ∧ ((∃ n, r = inr n) ↔ Forall (λ record, content_of record ≠ None) records).
Proof.
  revert written w. induction records as [|record rest IH]; intros written w.
  - intros [= <- <-]. exists [], [], []. rewrite !app_nil_r.
    split_and!; try done; try (by constructor).
    + intros n [= <-]. simpl. lia.
    + split; [constructor|eauto].
  - destruct (process_loop_step record rest written w)
      as [[Hnone Heq]|[(content & Hc & Hblank & Heq)
         |[(content & lm1 & Hc & Hvis & Heq)
          |(content & cat & lm2 & out & Hc & Hvis & Hin & Heq & Hcat & Hcar)]]];
      rewrite Heq.
    + intros [= <- <-]. exists [], [], []. rewrite !app_nil_r.
      split_and!; try done; try (by constructor).
      * apply sublist_nil_l.
      * simpl. lia.
      * by intros e [= <-].
      * split; [by intros [n ?]|]. by intros [? _]%Forall_cons.
    + intros (nc & kept & ns & H1 & H2 & H3 & H4 & H5 & H6 & H7 & H8 & H9
              & H10 & H11)%IH.
      exists nc, kept, ns. split_and!; try done.
      * by apply sublist_cons.
      * simpl. lia.
      * rewrite H11, Forall_cons, Hc. split; [by intros ?|by intros [_ ?]].
    + intros (nc & kept & ns & H1 & H2 & H3 & H4 & H5 & H6 & H7 & H8 & H9
              & H10 & H11)%IH.
      simpl in H1, H2.
      exists (ClassifierCall content :: nc), kept, ns.
      split_and!; try done.
      * by rewrite H1, <- app_assoc.
      * by apply sublist_cons.
      * simpl. lia.
      * simpl. by constructor.
      * rewrite H11, Forall_cons, Hc. split; [by intros ?|by intros [_ ?]].
    + intros (nc & kept & ns & H1 & H2 & H3 & H4 & H5 & H6 & H7 & H8 & H9
              & H10 & H11)%IH.
      simpl in H1, H2.
      exists (ClassifierCall content :: ExtractorCall content cat :: nc),
        (record :: kept), (out :: ns).
      split_and!; try done.
      * by rewrite H1, <- app_assoc.
      * by rewrite H2, <- app_assoc.
      * by apply sublist_skip.
      * by constructor.
      * constructor; [by exists cat|done].
      * simpl. by rewrite H6.
      * simpl. lia.
      * simpl. by constructor.
      * intros n Hn. rewrite (H9 n Hn). simpl. lia.
      * rewrite H11, Forall_cons, Hc. split; [by intros ?|by intros [_ ?]].
Qed.


Lemma content_of_None record :
  content_of record = None ↔ record !! "raw_content" = Some None.
Proof.
  unfold content_of, dict_get_default.
  by destruct (record !! "raw_content") as [[c|]|].
Qed.

Lemma process_loop_keyless records written (w : World LM) :
  Forall (λ record, record !! "raw_content" = None) records →
  process_loop (forward classifier extractor) records written w
  = (inr written, w).
Proof.
  induction 1 as [|record rest Hkey _ IH]; [done|].
  assert (Hc : content_of record = Some []).
  { unfold content_of, dict_get_default. by rewrite Hkey. }
  destruct (process_loop_step record rest written w)
    as [[Hnone _]|[(content & Hc' & _ & Heq)
       |[(content & lm1 & Hc' & Hvis & _)
        |(content & cat & lm2 & out & Hc' & Hvis & _)]]].
  - congruence.
  - by rewrite Heq.
  - rewrite Hc in Hc'. injection Hc' as <-. by destruct Hvis.
  - rewrite Hc in Hc'. injection Hc' as <-. by destruct Hvis.
Qed.

(** X7. A record that maps [raw_content] to [None] keeps the batch from
    completing: it ends in an exception.  Conversely, given model calls that
    return, the [AttributeError] of [None.strip()] comes only from such a
    record.  A missing key is no error: a batch of records without a
    [raw_content] key is skipped whole, with no model call and an empty
    output. *)
Theorem process_records_none_content (records : list Dict) (w : World LM) :
  let run := process_records (forward classifier extractor) records w in
  ((∃ record, record ∈ records ∧ record !! "raw_content" = Some None) →
   ∃ e, run.1 = inl e)
  ∧ (run.1 = inl AttributeError →
     ∃ record, record ∈ records ∧ record !! "raw_content" = Some None)
  ∧ (Forall (λ record, record !! "raw_content" = None) records →
     run = (inr 0%nat, mkWorld (lm w) (calls w) [])).
Proof.
  intros run. unfold run, process_records, bind, writer_open.
  split_and!.
  - destruct (process_loop _ records 0 _) as [r w'] eqn:Hrun.
    apply process_loop_summary in Hrun
      as (nc & kept & ns & _ & _ & _ & _ & _ & _ & _ & _ & _ & Herr & Hiff).
    simpl. intros (record & Hin & Hnone). destruct r as [e|n]; [eauto|].
    assert (HF : Forall (λ record, content_of record ≠ None) records)
      by (apply Hiff; eauto).
    rewrite Forall_forall in HF. destruct (HF record Hin).
    by apply content_of_None.
  - destruct (process_loop _ records 0 _) as [r w'] eqn:Hrun.
    apply process_loop_summary in Hrun
      as (nc & kept & ns & _ & _ & _ & _ & _ & _ & _ & _ & _ & Herr & Hiff).
    simpl. intros ->.
    assert (Hnot : ¬ Forall (λ record, content_of record ≠ None) records).
    { intros HF. by apply Hiff in HF as [n ?]. }
    apply (not_Forall_Exists _) in Hnot.
    apply Exists_exists in Hnot as (record & Hin & Hrec).
    exists record. split; [done|]. apply content_of_None.
    unfold compose in Hrec. simpl in Hrec.
    destruct (content_of record); [|done]. by destruct Hrec.
  - intros Hkey. by rewrite process_loop_keyless.
Qed.

(** X8. A batch replaces the output: what the sink held before is gone,
    and afterwards it holds at most one record per input record, each with one
    of the three target categories; the counter that is reported equals the
    number of records in the sink. *)
Theorem process_records_written (records : list Dict) (w : World LM) :
  let run := process_records (forward classifier extractor) records w in
  (length (sink run.2) ≤ length records)%nat
  ∧ Forall has_target_category (sink run.2)
  ∧ (∀ n, run.1 = inr n → n = length (sink run.2))
  ∧ sink run.2
    = sink (process_records (forward classifier extractor) records
              (mkWorld (lm w) (calls w) [])).2.
Proof.
  intros run. unfold run, process_records, bind, writer_open. simpl.
  destruct (process_loop _ records 0 _) as [r w'] eqn:Hrun.
  apply process_loop_summary in Hrun
    as (nc & kept & ns & _ & Hsink & Hsub & Hcar & Htarget & _ & _ & _ & Hn
        & _ & _).
  simpl in Hsink. simpl. rewrite Hsink. split_and!; try done.
  - rewrite <- (Forall2_length _ _ _ Hcar). by apply sublist_length.
Qed.


(** X10. The written records follow the input: they correspond, in order,
    to a subsequence of the input records, and each one carries the
    [raw_content], [release_time], [source_institution] and [url] of the input
    record it was made from ([None] for a missing key). *)
Theorem process_records_carries_metadata
    (records : list Dict) (w : World LM) :
  let run := process_records (forward classifier extractor) records w in
  ∃ kept, kept `sublist_of` records ∧ Forall2 carried kept (sink run.2).
Proof.
  intros run. unfold run, process_records, bind, writer_open. simpl.
  destruct (process_loop _ records 0 _) as [r w'] eqn:Hrun.
  apply process_loop_summary in Hrun
    as (nc & kept & ns & _ & Hsink & Hsub & Hcar & _).
  simpl in Hsink. simpl. rewrite Hsink. eauto.
Qed.

End BatchFacts.

(** ** utils.py *)

Section ColumnFacts.

Variable lower : pystr → pystr.

Implicit Types (columns aliases : list pystr) (key column : pystr).

Lemma normalized_columns_fold columns (m : gmap pystr pystr) key column :
  foldl (fun m col => <[Utils._normalize lower col := col]> m) m columns !! key
  = Some column
  ↔ (∃ before after,
       columns = before ++ column :: after
       ∧ Utils._normalize lower column = key
       ∧ ∀ c, c ∈ after → Utils._normalize lower c ≠ key)
    ∨ ((∀ c, c ∈ columns → Utils._normalize lower c ≠ key)
       ∧ m !! key = Some column).
Proof.
  revert m. induction columns as [|c columns IH]; intros m; simpl.
  - split.
    + intros Hm. right. split; [by intros c ?%elem_of_nil|done].
    + intros [(before & after & H & _)|[_ Hm]]; [by destruct before|done].
  - rewrite IH. split.
    + intros [(before & after & -> & Hk & Hafter)|[Hnone Hm]].
      * left. by exists (c :: before), after.
      * destruct (decide (Utils._normalize lower c = key)) as [Heq|Hne].
        -- rewrite <- Heq, lookup_insert_eq in Hm. injection Hm as ->.
           left. exists [], columns. split_and!; [done|done|].
           intros c' Hc'. by apply Hnone.
        -- rewrite lookup_insert_ne in Hm by done. right. split; [|done].
           intros c' [->|Hc']%elem_of_cons; auto.
    + intros [(before & after & Hcols & Hk & Hafter)|[Hnone Hm]].
      * destruct before as [|b before]; simplify_eq/=.
        -- right. split; [done|]. by rewrite lookup_insert_eq.
        -- left. by exists before, after.
      * right. split.
        -- intros c' Hc'. apply Hnone, elem_of_cons. by right.
        -- rewrite lookup_insert_ne; [done|]. apply Hnone, elem_of_cons.
           by left.
Qed.

Lemma normalized_columns_Some columns key column :
  Utils.normalized_columns lower columns !! key = Some column
  ↔ ∃ before after,
      columns = before ++ column :: after
      ∧ Utils._normalize lower column = key
      ∧ ∀ c, c ∈ after → Utils._normalize lower c ≠ key.
Proof.
  unfold Utils.normalized_columns. rewrite normalized_columns_fold.
  split; [|by left]. intros [?|[_ Hm]]; [done|]. by rewrite lookup_empty in Hm.
Qed.

Lemma normalized_columns_None columns key :
  Utils.normalized_columns lower columns !! key = None
  ↔ ∀ c, c ∈ columns → Utils._normalize lower c ≠ key.
Proof.
  split.
  - intros Hnone c Hc Hk.
    assert (Hsome : is_Some (Utils.normalized_columns lower columns !! key));
      [|rewrite Hnone in Hsome; by destruct Hsome].
    clear Hnone. subst key.
    induction columns as [|c' columns IH] using rev_ind;
      [by apply elem_of_nil in Hc|].
    unfold Utils.normalized_columns. rewrite foldl_app. simpl.
    apply lookup_insert_is_Some'.
    apply elem_of_app in Hc as [Hc|Hc%list_elem_of_singleton].
    + right. by apply IH.
    + left. by rewrite Hc.
  - intros Hnone.
    destruct (Utils.normalized_columns lower columns !! key) as [column|] eqn:H;
      [|done].
    apply normalized_columns_Some in H as (before & after & -> & Hk & _).
    destruct (Hnone column); [|done]. apply elem_of_app. right.
    apply elem_of_cons. by left.
Qed.

Lemma target_column_chosen columns aliases :
  chosen_column lower columns aliases
    (Utils.target_column lower (Utils.normalized_columns lower columns) aliases).
Proof.
  induction aliases as [|alias aliases IH]; simpl.
  - by intros a c ?%elem_of_nil.
  - destruct (Utils.normalized_columns lower columns
                !! Utils._normalize lower alias) as [column|] eqn:Hlook.
    + apply normalized_columns_Some in Hlook as (before & after & -> & Hk & Ha).
      exists [], alias, aliases, before, after.
      split_and!; [done| |done|done|done]. by intros a c ?%elem_of_nil.
    + pose proof (proj1 (normalized_columns_None _ _) Hlook) as Hnone.
      destruct (Utils.target_column _ _ aliases) as [column|]; simpl in *.
      * destruct IH as (earlier & a & later & before & after & -> & He & -> & Hk
                        & Ha).
        exists (alias :: earlier), a, later, before, after.
        split_and!; [done| |done|done|done].
        intros a' c [->|Ha']%elem_of_cons Hc; [by apply Hnone|by apply He].
      * intros a c [->|Ha]%elem_of_cons Hc; [by apply Hnone|by apply IH].
Qed.

(** X11. The column mapping has one entry per field of the aliases, in
    their order.  The entry of a field is the column named by the first of
    its aliases that names any column, names being compared after
    [_normalize]; when several columns have that normalized name the last one
    is taken; the entry is [None] exactly when none of the aliases names a
    column. *)
Theorem build_column_mapping_correct
    (columns : list pystr) (column_aliases : Utils.ColumnAliases) :
  Forall2 (fun fa fc => fc.1 = fa.1 ∧ chosen_column lower columns fa.2 fc.2)
    column_aliases
    (Utils._build_column_mapping lower columns column_aliases).
Proof.
  unfold Utils._build_column_mapping.
  induction column_aliases as [|[field aliases] rest IH]; simpl;
    constructor; [|done].
  split; [done|]. apply target_column_chosen.
Qed.

End ColumnFacts.

Lemma select_loader_inl sfx e :
  Utils._select_loader sfx = inl e
  ↔ e = Utils.IO_ValueError sfx ∧ sfx ∉ [Utils.XLS; Utils.XLSX; Utils.CSV].
Proof.
  unfold Utils._select_loader.
  destruct (decide (sfx ∈ [Utils.XLS; Utils.XLSX])) as [Hx|Hx].
  { rewrite bool_decide_eq_true_2 by done. split; [done|].
    intros [_ Hout]. destruct Hout.
    rewrite !elem_of_cons in Hx. rewrite !elem_of_cons. tauto. }
  rewrite bool_decide_eq_false_2 by done.
  destruct (decide (sfx = Utils.CSV)) as [Hc|Hc].
  { rewrite bool_decide_eq_true_2 by done. split; [done|].
    intros [_ Hout]. destruct Hout. rewrite !elem_of_cons. tauto. }
  rewrite bool_decide_eq_false_2 by done. split.
  - intros [= <-]. split; [done|]. intros Hin. apply Hx.
    rewrite !elem_of_cons, elem_of_nil in Hin. rewrite !elem_of_cons. tauto.
  - by intros [-> _].
Qed.

Lemma missing_fields_elem (items : list (string * option pystr)) field :
  field ∈ Utils.missing_fields items ↔ (field, None) ∈ items.
Proof.
  induction items as [|[f [c|]] items IH]; simpl.
  - by rewrite !elem_of_nil.
  - rewrite IH, elem_of_cons. split; [auto|]. by intros [[=]|?].
  - rewrite !elem_of_cons, IH. split.
    + intros [->|?]; auto.
    + intros [[= ->]|?]; auto.
Qed.

Lemma fst_NoDup_functional {A} (l : list (string * A)) k v1 v2 :
  NoDup (map fst l) → (k, v1) ∈ l → (k, v2) ∈ l → v1 = v2.
Proof.
  induction l as [|[k' v'] l IH]; simpl; [by intros _ ?%elem_of_nil|].
  intros [Hnotin Hnodup]%NoDup_cons.
  assert (Hfst : ∀ v, (k', v) ∈ l → k' ∈ map fst l).
  { intros v Hv. clear -Hv. induction l as [|[a b] l IH]; simpl;
      [by apply elem_of_nil in Hv|].
    apply elem_of_cons in Hv as [[= -> ->]|Hv]; apply elem_of_cons; auto. }
  intros H1 H2.
  apply elem_of_cons in H1 as [H1|H1]; apply elem_of_cons in H2 as [H2|H2].
  - by simplify_eq.
  - simplify_eq. destruct Hnotin. by apply (Hfst v2).
  - simplify_eq. destruct Hnotin. by apply (Hfst v1).
  - by apply IH.
Qed.

Section ReadFacts.

Variable lower : pystr → pystr.

Lemma build_column_mapping_fields columns (column_aliases : Utils.ColumnAliases) :
  map fst (Utils._build_column_mapping lower columns column_aliases)
  = map fst column_aliases.
Proof.
  unfold Utils._build_column_mapping.
  induction column_aliases as [|[f a] rest IH]; simpl; [done|by f_equal].
Qed.

Lemma unnamed_forall names aliases :
  unnamed lower names aliases
  ↔ ∀ a c, a ∈ aliases → c ∈ names →
           Utils._normalize lower c ≠ Utils._normalize lower a.
Proof.
  unfold unnamed. rewrite Forall_forall. split.
  - intros H a c Ha Hc. specialize (H a Ha). rewrite Forall_forall in H.
    by apply H.
  - intros H a Ha. apply Forall_forall. intros c Hc. by apply H.
Qed.

(** A field gets no column exactly when none of its aliases names one. *)
Lemma target_column_None names aliases :
  Utils.target_column lower (Utils.normalized_columns lower names) aliases
  = None
  ↔ unnamed lower names aliases.
Proof.
  pose proof (target_column_chosen lower names aliases) as Hch.
  rewrite unnamed_forall.
  destruct (Utils.target_column _ _ aliases) as [column|]; simpl in Hch.
  - split; [done|]. intros Hnone.
    destruct Hch as (earlier & alias & later & before & after & -> & _ & ->
                     & Hk & _).
    destruct (Hnone alias column); [| |done].
    + apply elem_of_app. right. apply elem_of_cons. by left.
    + apply elem_of_app. right. apply elem_of_cons. by left.
  - done.
Qed.

Lemma missing_fields_unnamed names (aliases : Utils.ColumnAliases) :
  Utils.missing_fields (Utils._build_column_mapping lower names aliases)
  = (filter (λ fa, unnamed lower names fa.2) aliases).*1.
Proof.
  unfold Utils._build_column_mapping.
  induction aliases as [|[field al] rest IH]; simpl; [done|].
  rewrite filter_cons. simpl.
  destruct (decide (unnamed lower names al)) as [Hun|Hun].
  - rewrite (proj2 (target_column_None names al) Hun). simpl. by f_equal.
  - destruct (Utils.target_column _ _ al) as [column|] eqn:Ht; [done|].
    by apply target_column_None in Ht.
Qed.

Lemma mapping_column_named names (aliases : Utils.ColumnAliases) field column :
  (field, Some column) ∈ Utils._build_column_mapping lower names aliases →
  column ∈ names.
Proof.
  unfold Utils._build_column_mapping.
  intros ([f al] & [= -> Hc] & _)%list_elem_of_fmap.
  pose proof (target_column_chosen lower names al) as Hch.
  rewrite <- Hc in Hch.
  destruct Hch as (_ & _ & _ & before & after & _ & _ & -> & _).
  apply elem_of_app. right. apply elem_of_cons. by left.
Qed.

Lemma label_position_Some columns column i :
  Utils.label_position columns column = Some i →
  columns !! i = Some (Utils.StrLabel column).
Proof.
  revert i. induction columns as [|col rest IH]; intros i; simpl; [done|].
  destruct (decide (col = Utils.StrLabel column)) as [->|Hne].
  - rewrite bool_decide_eq_true_2 by done. by intros [= <-].
  - rewrite bool_decide_eq_false_2 by done.
    destruct (Utils.label_position rest column) as [k|]; simpl; [|done].
    intros [= <-]. by apply IH.
Qed.

Lemma label_position_None columns column :
  Utils.label_position columns column = None
  ↔ Utils.StrLabel column ∉ columns.
Proof.
  induction columns as [|col rest IH]; simpl.
  - split; [|done]. intros _. apply not_elem_of_nil.
  - rewrite not_elem_of_cons.
    destruct (decide (col = Utils.StrLabel column)) as [->|Hne].
    + rewrite bool_decide_eq_true_2 by done. split; [done|]. by intros [? _].
    + rewrite bool_decide_eq_false_2 by done.
      destruct (Utils.label_position rest column) as [k|]; simpl.
      * split; [done|]. intros [_ Hn]. by apply IH in Hn.
      * split; [|done]. intros _. split; [congruence|]. by apply IH.
Qed.

Lemma label_position_first columns column i j :
  NoDup columns →
  Utils.label_position columns column = Some i →
  columns !! j = Some (Utils.StrLabel column) → j = i.
Proof.
  intros Hnd Hpos%label_position_Some Hj.
  by apply (NoDup_lookup columns j i (Utils.StrLabel column)).
Qed.

Lemma row_record_Some columns (row : nat → pystr)
    (items : list (string * option pystr)) (acc record : Dict) field v :
  Utils.row_record columns row items acc = inr record →
  record !! field = Some v →
  (∃ column i,
     (field, Some column) ∈ items
     ∧ Utils.label_position columns column = Some i
     ∧ v = Some (strip (row i)))
  ∨ acc !! field = Some v.
Proof.
  revert acc. induction items as [|[f [c|]] items IH]; intros acc; simpl.
  - intros [= <-]. by right.
  - unfold Utils.row_get.
    destruct (Utils.label_position columns c) as [i|] eqn:Hpos; [|done].
    intros Hrec Hv.
    destruct (IH _ Hrec Hv) as [(column & k & Hin & Hk & ->)|Hacc].
    + left. exists column, k. split_and!; [|done|done].
      apply elem_of_cons. by right.
    + destruct (decide (f = field)) as [->|Hne].
      * rewrite lookup_insert_eq in Hacc. injection Hacc as <-.
        left. exists c, i. split_and!; [|done|done].
        apply elem_of_cons. by left.
      * rewrite lookup_insert_ne in Hacc by done. by right.
  - intros Hrec Hv.
    destruct (IH _ Hrec Hv) as [(column & k & Hin & Hk & ->)|Hacc];
      [|by right].
    left. exists column, k. split_and!; [|done|done].
    apply elem_of_cons. by right.
Qed.

Lemma row_record_is_Some columns (row : nat → pystr)
    (items : list (string * option pystr)) (acc record : Dict) field :
  Utils.row_record columns row items acc = inr record →
  (∃ column, (field, Some column) ∈ items) ∨ is_Some (acc !! field) →
  is_Some (record !! field).
Proof.
  revert acc. induction items as [|[f [c|]] items IH]; intros acc; simpl.
  - intros [= <-] [(column & ?%elem_of_nil)|?]; done.
  - unfold Utils.row_get.
    destruct (Utils.label_position columns c) as [i|]; [|done].
    intros Hrec [(column & [[= -> ->]|Hin]%elem_of_cons)|Hacc];
      apply (IH _ Hrec).
    + right. rewrite lookup_insert_eq. by eexists.
    + left. eauto.
    + right. apply lookup_insert_is_Some'. by right.
  - intros Hrec [(column & [[=]|Hin]%elem_of_cons)|Hacc];
      apply (IH _ Hrec); eauto.
Qed.

Lemma row_record_labelled columns (row : nat → pystr)
    (items : list (string * option pystr)) (acc : Dict) :
  (∀ field column, (field, Some column) ∈ items →
                   Utils.StrLabel column ∈ columns) →
  ∃ record, Utils.row_record columns row items acc = inr record.
Proof.
  revert acc. induction items as [|[f [c|]] items IH]; intros acc Hlab; simpl.
  - by eexists.
  - unfold Utils.row_get.
    destruct (Utils.label_position columns c) as [i|] eqn:Hpos.
    + apply IH. intros field column Hin. apply (Hlab field).
      apply elem_of_cons. by right.
    + apply label_position_None in Hpos. destruct Hpos.
      apply (Hlab f). apply elem_of_cons. by left.
  - apply IH. intros field column Hin. apply (Hlab field).
    apply elem_of_cons. by right.
Qed.

Lemma row_record_error columns (row : nat → pystr)
    (items : list (string * option pystr)) (acc : Dict) e :
  Utils.row_record columns row items acc = inl e →
  ∃ field column,
    (field, Some column) ∈ items
    ∧ (Utils.StrLabel column ∉ columns)
    ∧ e = Utils.IO_KeyError_label column.
Proof.
  revert acc. induction items as [|[f [c|]] items IH]; intros acc; simpl.
  - done.
  - unfold Utils.row_get.
    destruct (Utils.label_position columns c) as [i|] eqn:Hpos.
    + intros (field & column & Hin & H)%IH. exists field, column.
      split; [|done]. apply elem_of_cons. by right.
    + intros [= <-]. exists f, c. split_and!; [|by apply label_position_None|done].
      apply elem_of_cons. by left.
  - intros (field & column & Hin & H)%IH. exists field, column.
    split; [|done]. apply elem_of_cons. by right.
Qed.

Lemma row_record_unlabelled columns (row : nat → pystr)
    (items : list (string * option pystr)) (acc : Dict) field column :
  (field, Some column) ∈ items →
  Utils.StrLabel column ∉ columns →
  ∃ c, Utils.row_record columns row items acc = inl (Utils.IO_KeyError_label c).
Proof.
  intros Hin Hnot.
  destruct (Utils.row_record columns row items acc) as [e|record] eqn:Hrec.
  - apply row_record_error in Hrec as (_ & c & _ & _ & ->). eauto.
  - exfalso. revert acc Hrec.
    induction items as [|[f [c|]] items IH]; intros acc; simpl.
    + by apply elem_of_nil in Hin.
    + unfold Utils.row_get.
      destruct (Utils.label_position columns c) as [i|] eqn:Hpos; [|done].
      apply elem_of_cons in Hin as [[= -> ->]|Hin].
      * apply label_position_None in Hnot. congruence.
      * by apply IH.
    + apply elem_of_cons in Hin as [[=]|Hin]. by apply IH.
Qed.

Lemma read_rows_spec columns (rows : list (nat → pystr))
    (items : list (string * option pystr)) (results records : list Dict) :
  Utils.read_rows columns rows items results = inr records
  ↔ ∃ new,
      records = results ++ new
      ∧ Forall2 (λ row record,
                   Utils.row_record columns row items ∅ = inr record)
          rows new.
Proof.
  revert results. induction rows as [|row rest IH]; intros results; simpl.
  - split.
    + intros [= <-]. exists []. by rewrite app_nil_r.
    + intros (new & -> & ->%Forall2_nil_inv_l). by rewrite app_nil_r.
  - destruct (Utils.row_record columns row items ∅) as [e|record] eqn:Hrec.
    + split; [done|].
      intros (new & _ & (r & new' & Hr & _ & _)%Forall2_cons_inv_l).
      rewrite Hrec in Hr. done.
    + rewrite IH. split.
      * intros (new & -> & Hall). exists (record :: new).
        split; [by rewrite <- app_assoc|by constructor].
      * intros (new & -> & (r & new' & Hr & Hall & ->)%Forall2_cons_inv_l).
        rewrite Hrec in Hr. injection Hr as <-.
        exists new'. split; [by rewrite <- app_assoc|done].
Qed.

Lemma read_rows_error columns (rows : list (nat → pystr))
    (items : list (string * option pystr)) (results : list Dict) e :
  Utils.read_rows columns rows items results = inl e →
  ∃ row, row ∈ rows ∧ Utils.row_record columns row items ∅ = inl e.
Proof.
  revert results. induction rows as [|row rest IH]; intros results; simpl.
  - done.
  - destruct (Utils.row_record columns row items ∅) as [e'|record] eqn:Hrec.
    + intros [= <-]. exists row. split; [|done]. apply elem_of_cons. by left.
    + intros (row' & Hin & H)%IH. exists row'. split; [|done].
      apply elem_of_cons. by right.
Qed.

(** X12. How reading fails, in the order the checks are made: a missing
    file gives [FileNotFoundError] whatever its suffix; an existing file whose
    lower-cased suffix is none of .xls, .xlsx, .csv gives [ValueError]; a
    reader that raises gives [RuntimeError]; a sheet in which some field is
    named by none of its aliases gives the [KeyError] that lists those
    fields in the order of the aliases.  When every field is named, the rows
    are indexed with the [str()] of the chosen labels: the [KeyError] of a
    row lookup arises only on a sheet with rows, for the text of a label
    that is not a string, and it does arise when the aliases of some field
    name no string label. *)
Theorem read_news_file_errors
    (file : Utils.NewsFile) (column_aliases : option Utils.ColumnAliases) :
  let outcome := Utils.read_news_file lower file column_aliases in
  let sfx := lower (Utils.suffix file) in
  let aliases := Utils.aliases_or_default column_aliases in
  (outcome = inl Utils.IO_FileNotFoundError ↔ Utils.file_exists file = false)
  ∧ (∀ s, outcome = inl (Utils.IO_ValueError s)
          ↔ Utils.file_exists file = true ∧ s = sfx
            ∧ sfx ∉ [Utils.XLS; Utils.XLSX; Utils.CSV])
  ∧ (outcome = inl Utils.IO_RuntimeError
     ↔ Utils.file_exists file = true
       ∧ ∃ loader, Utils._select_loader sfx = inr loader
                   ∧ Utils.load file loader = None)
  ∧ (∀ missing, outcome = inl (Utils.IO_KeyError missing)
       ↔ Utils.file_exists file = true ∧ missing ≠ []
         ∧ ∃ loader df,
             Utils._select_loader sfx = inr loader
             ∧ Utils.load file loader = Some df
             ∧ missing
               = (filter (λ fa, unnamed lower
                                  (Utils.label_str <$> Utils.columns df) fa.2)
                    aliases).*1)
  ∧ (∀ column, outcome = inl (Utils.IO_KeyError_label column) →
       Utils.file_exists file = true
       ∧ ∃ loader df,
           Utils._select_loader sfx = inr loader
           ∧ Utils.load file loader = Some df
           ∧ Forall (λ fa, ¬ unnamed lower
                               (Utils.label_str <$> Utils.columns df) fa.2)
               aliases
           ∧ Utils.rows df ≠ []
           ∧ Utils.OtherLabel column ∈ Utils.columns df
           ∧ Utils.StrLabel column ∉ Utils.columns df)
  ∧ (∀ loader df,
       Utils.file_exists file = true →
       Utils._select_loader sfx = inr loader →
       Utils.load file loader = Some df →
       Forall (λ fa, ¬ unnamed lower
                         (Utils.label_str <$> Utils.columns df) fa.2)
         aliases →
       Utils.rows df ≠ [] →
       (∃ fa, fa ∈ aliases
              ∧ ∀ a name, a ∈ fa.2 →
                  Utils.StrLabel name ∈ Utils.columns df →
                  Utils._normalize lower name ≠ Utils._normalize lower a) →
       ∃ column, outcome = inl (Utils.IO_KeyError_label column)).
Proof.
  intros outcome sfx aliases.
  unfold outcome, Utils.read_news_file. fold sfx. fold aliases.
  destruct (Utils.file_exists file); simpl.
  2:{ split_and!; [done|..]; intros; try done; split; try done;
        by intros [? _]. }
  destruct (Utils._select_loader sfx) as [e|loader] eqn:Hsel.
  { apply select_loader_inl in Hsel as [-> Hout].
    split_and!; [done| |..].
    - intros s. split; [by intros [= ->]|by intros (_ & -> & _)].
    - split; [done|]. by intros (_ & loader & ? & _).
    - intros missing. split; [done|]. by intros (_ & _ & ? & ? & ? & _).
    - done.
    - intros ? ? _ [=]. }
  assert (Hin : ¬ (sfx ∉ [Utils.XLS; Utils.XLSX; Utils.CSV])).
  { intros Hout.
    assert (Utils._select_loader sfx = inl (Utils.IO_ValueError sfx))
      by by apply select_loader_inl.
    congruence. }
  destruct (Utils.load file loader) as [df|] eqn:Hload.
  2:{ split_and!; [done| |..].
      - intros s. split; [done|]. by intros (_ & _ & ?).
      - split; [|done]. intros _. split; [done|]. eauto.
      - intros missing. split; [done|].
        intros (_ & _ & l & df & [= <-] & ? & _). congruence.
      - done.
      - intros l df _ [= <-] ?. congruence. }
  set (names := Utils.label_str <$> Utils.columns df).
  change (map Utils.label_str (Utils.columns df)) with names.
  rewrite missing_fields_unnamed.
  destruct ((filter _ aliases).*1) as [|f missing] eqn:Hmiss.
  - assert (Hnamed : Forall (λ fa, ¬ unnamed lower names fa.2) aliases).
    { apply Forall_forall. intros fa Hfa Hun.
      assert (Hf : fa ∈ filter (λ fa, unnamed lower names fa.2) aliases)
        by by apply list_elem_of_filter.
      apply fmap_nil_inv in Hmiss. rewrite Hmiss in Hf.
      by apply elem_of_nil in Hf. }
    assert (Hlabel : ∀ e,
              Utils.read_rows (Utils.columns df) (Utils.rows df)
                (Utils._build_column_mapping lower names aliases) [] = inl e →
              ∃ c, e = Utils.IO_KeyError_label c).
    { intros e (row & _ & Hr)%read_rows_error.
      apply row_record_error in Hr as (? & c & _ & _ & ->). eauto. }
    split_and!.
    + split; [|done]. by intros [c ?]%Hlabel.
    + intros s. split; [|by intros (_ & _ & ?)]. by intros [c ?]%Hlabel.
    + split; [|intros (_ & l & [= <-] & ?); congruence].
      by intros [c ?]%Hlabel.
    + intros missing. split.
      * by intros [c ?]%Hlabel.
      * intros (_ & Hne & l & df' & [= <-] & Hdf & ->).
        rewrite Hload in Hdf. injection Hdf as <-. fold names in Hne.
        by rewrite Hmiss in Hne.
    + intros column Hr. split; [done|]. exists loader, df.
      apply read_rows_error in Hr as (row & Hrow & Hr).
      apply row_record_error in Hr as (field & c & Hc & Hnot & [= ->]).
      split_and!; [done|done|done| |..|done].
      * intros Hnil. rewrite Hnil in Hrow. by apply elem_of_nil in Hrow.
      * apply mapping_column_named in Hc.
        apply list_elem_of_fmap in Hc as ([name|text] & -> & Hcol);
          [by destruct Hnot|done].
    + intros l df' _ [= <-] Hdf _ Hrows (fa & Hfa & Hstr).
      rewrite Hload in Hdf. injection Hdf as <-.
      destruct (Utils.rows df) as [|row rest] eqn:Hr; [done|]. simpl.
      destruct fa as [field al]. simpl in Hstr.
      assert (∃ column,
                (field, Some column)
                ∈ Utils._build_column_mapping lower names aliases
                ∧ Utils.StrLabel column ∉ Utils.columns df)
        as (column & Hc & Hnot).
      { rewrite Forall_forall in Hnamed. specialize (Hnamed _ Hfa).
        simpl in Hnamed.
        pose proof (target_column_chosen lower names al) as Hch.
        destruct (Utils.target_column lower
                    (Utils.normalized_columns lower names) al)
          as [column|] eqn:Ht.
        2:{ by apply target_column_None in Ht. }
        exists column. split.
        - unfold Utils._build_column_mapping. apply list_elem_of_fmap.
          exists (field, al). simpl. by rewrite Ht.
        - destruct Hch as (earlier & alias & later & _ & _ & -> & _ & _ & Hk
                           & _).
          intros Hlab. apply (Hstr alias column); [|done|done].
          apply elem_of_app. right. apply elem_of_cons. by left. }
      destruct (row_record_unlabelled (Utils.columns df) row _ ∅ _ _ Hc Hnot)
        as [c Hrec].
      rewrite Hrec. eauto.
  - split_and!; [done| |..].
    + intros s. split; [done|]. by intros (_ & _ & ?).
    + split; [done|]. intros (_ & l & [= <-] & ?). congruence.
    + intros missing'. split.
      * intros [= <-]. split_and!; [done|done|].
        exists loader, df. fold names. by rewrite Hmiss.
      * intros (_ & _ & l & df' & [= <-] & Hdf & ->).
        rewrite Hload in Hdf. injection Hdf as <-. fold names.
        by rewrite Hmiss.
    + done.
    + intros l df' _ [= <-] Hdf Hnamed _ _.
      rewrite Hload in Hdf. injection Hdf as <-. fold names in Hnamed.
      assert (Hf : ∃ fa, fa ∈ filter (λ fa, unnamed lower names fa.2) aliases).
      { destruct (filter _ aliases) as [|fa ?]; [done|].
        exists fa. apply elem_of_cons. by left. }
      destruct Hf as (fa & [Hun Hfa]%list_elem_of_filter).
      rewrite Forall_forall in Hnamed. by destruct (Hnamed fa Hfa).
Qed.

(** X13. A successful read: when the file exists, its suffix selects a
    reader, the reader returns a sheet whose labels are distinct strings,
    and every field is named by one of its aliases, the result has one
    record per row, in row order.  Each record has exactly the fields of the
    aliases as keys; every value is a stripped string, the text of the row's
    cell in a column mapped to that field, never [None]; and with distinct
    fields it is the cell under the label of the field's own column. *)
Theorem read_news_file_records
    (file : Utils.NewsFile) (column_aliases : option Utils.ColumnAliases)
    (loader : Utils.Loader) (df : Utils.DataFrame) :
  let aliases := Utils.aliases_or_default column_aliases in
  let names := Utils.label_str <$> Utils.columns df in
  let mapping := Utils._build_column_mapping lower names aliases in
  Utils.file_exists file = true →
  Utils._select_loader (lower (Utils.suffix file)) = inr loader →
  Utils.load file loader = Some df →
  Forall (λ fa, ¬ unnamed lower names fa.2) aliases →
  Forall is_string_label (Utils.columns df) →
  NoDup (Utils.columns df) →
  ∃ records,
    Utils.read_news_file lower file column_aliases = inr records
    ∧ Forall2
        (fun row record =>
           (∀ field, is_Some (record !! field) ↔ field ∈ map fst aliases)
           ∧ (∀ field v, record !! field = Some v →
                ∃ column i,
                  (field, Some column) ∈ mapping
                  ∧ Utils.columns df !! i = Some (Utils.StrLabel column)
                  ∧ v = Some (strip (row i))
                  ∧ trimmed (strip (row i)))
           ∧ (NoDup (map fst aliases) →
              ∀ field column i,
                (field, Some column) ∈ mapping →
                Utils.columns df !! i = Some (Utils.StrLabel column) →
                record !! field = Some (Some (strip (row i)))))
        (Utils.rows df) records.
Proof.
  intros aliases names mapping Hex Hsel Hload Hnamed Hstr Hnd.
  unfold Utils.read_news_file. rewrite Hex, Hsel, Hload. simpl.
  fold aliases. change (map Utils.label_str (Utils.columns df)) with names.
  fold mapping.
  assert (Hmiss : Utils.missing_fields mapping = []).
  { unfold mapping. rewrite missing_fields_unnamed.
    replace (filter _ aliases) with (@nil (string * list pystr)); [done|].
    symmetry. clear -Hnamed.
    induction Hnamed as [|fa rest Hfa _ IH]; [done|].
    rewrite filter_cons. by destruct (decide _). }
  rewrite Hmiss.
  assert (Hall : ∀ field c, (field, c) ∈ mapping → is_Some c).
  { intros field [c|] Hin; [by eexists|].
    apply missing_fields_elem in Hin. rewrite Hmiss in Hin.
    by apply elem_of_nil in Hin. }
  assert (Hfields : ∀ field,
            field ∈ map fst aliases ↔ ∃ column, (field, Some column) ∈ mapping).
  { intros field.
    rewrite <- (build_column_mapping_fields names aliases).
    fold mapping. clear -Hall.
    induction mapping as [|[f c] items IH]; simpl.
    - split; [by intros ?%elem_of_nil|by intros [? ?%elem_of_nil]].
    - rewrite elem_of_cons, IH.
      2:{ intros f' c' Hin. apply (Hall f'), elem_of_cons. by right. }
      split.
      + intros [->|[column Hin]].
        * destruct (Hall f c) as [column ->]; [apply elem_of_cons; by left|].
          exists column. apply elem_of_cons. by left.
        * exists column. apply elem_of_cons. by right.
      + intros [column [[= -> <-]|Hin]%elem_of_cons]; eauto. }
  assert (Hlab : ∀ field column, (field, Some column) ∈ mapping →
                                 Utils.StrLabel column ∈ Utils.columns df).
  { intros field column Hin%mapping_column_named.
    apply list_elem_of_fmap in Hin as ([name|text] & -> & Hcol); [done|].
    rewrite Forall_forall in Hstr. by destruct (Hstr _ Hcol). }
  assert (∃ records,
            Forall2 (λ row record,
                       Utils.row_record (Utils.columns df) row mapping ∅
                       = inr record) (Utils.rows df) records)
    as [records Hrows].
  { induction (Utils.rows df) as [|row rows IH]; [by exists []|].
    destruct IH as [records IH].
    destruct (row_record_labelled (Utils.columns df) row mapping ∅ Hlab)
      as [record Hrec].
    exists (record :: records). by constructor. }
  exists records. split.
  { apply read_rows_spec. by exists records. }
  eapply Forall2_impl; [exact Hrows|].
  intros row record Hrec. simpl in Hrec. split_and!.
  - intros field. rewrite Hfields. split.
    + intros [v Hv].
      destruct (row_record_Some _ _ _ _ _ _ _ Hrec Hv)
        as [(column & i & Hin & _)|Hacc]; [eauto|].
      by rewrite lookup_empty in Hacc.
    + intros Hcol. apply (row_record_is_Some _ _ _ _ _ _ Hrec). by left.
  - intros field v Hv.
    destruct (row_record_Some _ _ _ _ _ _ _ Hrec Hv)
      as [(column & i & Hin & Hpos & ->)|Hacc].
    + exists column, i.
      split_and!; [done|by apply label_position_Some|done|apply strip_trimmed].
    + by rewrite lookup_empty in Hacc.
  - intros Hnodup field column i Hin Hi.
    destruct (row_record_is_Some _ row mapping ∅ record field Hrec)
      as [v Hv]; [eauto|].
    rewrite Hv.
    destruct (row_record_Some _ _ _ _ _ _ _ Hrec Hv)
      as [(column' & k & Hin' & Hpos & ->)|Hacc];
      [|by rewrite lookup_empty in Hacc].
    assert (Hsame : Some column' = Some column).
    { apply (fst_NoDup_functional mapping field); [|done..].
      unfold mapping. by rewrite build_column_mapping_fields. }
    injection Hsame as ->.
    by rewrite (label_position_first _ _ _ _ Hnd Hpos Hi).
Qed.

End ReadFacts.

Section WriterFacts.

Variable dumps : bool → Dict → pystr.

Lemma encodable_line line :
  Utils.encodable (line ++ [0xA]) = Utils.encodable line.
Proof.
  unfold Utils.encodable. rewrite forallb_app. simpl. by rewrite andb_true_r.
Qed.

Lemma writable_all ensure_ascii records :
  writable dumps ensure_ascii records = records
  ↔ Forall (λ record, Utils.encodable (dumps ensure_ascii record) = true)
      records.
Proof.
  induction records as [|record rest IH]; simpl.
  - split; [constructor|done].
  - rewrite Forall_cons.
    destruct (Utils.encodable (dumps ensure_ascii record)).
    + rewrite <- IH. split; [by intros [= ->]|by intros [_ ->]].
    + split; [done|by intros [? _]].
Qed.

Lemma writable_prefix ensure_ascii records :
  writable dumps ensure_ascii records `prefix_of` records.
Proof.
  induction records as [|record rest IH]; simpl; [done|].
  destruct (Utils.encodable (dumps ensure_ascii record)).
  - by apply prefix_cons.
  - apply prefix_nil.
Qed.

Lemma writable_encodable ensure_ascii records :
  Forall (λ record, Utils.encodable (dumps ensure_ascii record) = true)
    (writable dumps ensure_ascii records).
Proof.
  induction records as [|record rest IH]; simpl; [constructor|].
  destruct (Utils.encodable (dumps ensure_ascii record)) eqn:He;
    by constructor.
Qed.

Lemma append_all_open self records :
  Utils._fp self = true →
  let kept := writable dumps (Utils.ensure_ascii self) records in
  Utils.append_all dumps self records
  = (if bool_decide (kept = records) then inr tt
     else inl Utils.IO_UnicodeEncodeError,
     Utils.mkJsonlWriter (Utils.ensure_ascii self) true
       (Utils.file self ++ lines_of dumps (Utils.ensure_ascii self) kept)).
Proof.
  revert self. induction records as [|record rest IH]; intros self Hopen.
  - unfold lines_of. simpl. rewrite app_nil_r. by destruct self; simplify_eq/=.
  - simpl. unfold Utils.append. rewrite Hopen. simpl.
    rewrite encodable_line.
    destruct (Utils.encodable (dumps (Utils.ensure_ascii self) record)).
    + rewrite IH by done. simpl.
      set (kept := writable dumps (Utils.ensure_ascii self) rest).
      f_equal.
      * destruct (decide (kept = rest)) as [Heq|Hne].
        -- rewrite !bool_decide_eq_true_2; [done|by rewrite Heq|done].
        -- rewrite !bool_decide_eq_false_2; [done|by intros [= ?]|done].
      * unfold lines_of. simpl. by rewrite <- !app_assoc.
    + rewrite bool_decide_eq_false_2 by done.
      unfold lines_of. simpl. rewrite app_nil_r.
      by destruct self; simplify_eq/=.
Qed.

(** X14. [write_jsonl], on a file system that accepts the writes: whatever
    the file held before, afterwards it holds one newline-terminated line
    per record, in the order of the records, up to the first record whose
    line holds a character that UTF-8 cannot encode (a lone surrogate).
    Without such a record it returns and the file holds all the lines; with
    one it raises [UnicodeEncodeError], and nothing else.  [write_json] does
    the same with [ensure_ascii] off, whatever its [indent]. *)
Theorem write_jsonl_file
    (records : list Dict) (disk : pystr) (ensure_ascii : bool) (indent : nat) :
  let kept := writable dumps ensure_ascii records in
  Utils.write_jsonl dumps records disk ensure_ascii
  = (if bool_decide (kept = records) then inr tt
     else inl Utils.IO_UnicodeEncodeError,
     lines_of dumps ensure_ascii kept)
  ∧ kept `prefix_of` records
  ∧ (kept = records
     ↔ Forall (λ record, Utils.encodable (dumps ensure_ascii record) = true)
         records)
  ∧ Utils.write_json dumps records disk indent
    = (if bool_decide (writable dumps false records = records) then inr tt
       else inl Utils.IO_UnicodeEncodeError,
       lines_of dumps false (writable dumps false records)).
Proof.
  assert (H : ∀ ea, Utils.write_jsonl dumps records disk ea
                    = (if bool_decide (writable dumps ea records = records)
                       then inr tt else inl Utils.IO_UnicodeEncodeError,
                       lines_of dumps ea (writable dumps ea records))).
  { intros ea. unfold Utils.write_jsonl.
    by rewrite append_all_open by done. }
  split_and!; [apply H|apply writable_prefix|apply writable_all|apply H].
Qed.

(** X15. Any sequence of [__enter__], [append] and [__exit__] calls on a
    writer, on a file system that accepts the writes: an exception is either
    the [RuntimeError] of an [append] on a writer that is not open, or the
    [UnicodeEncodeError] of an [append], on an open writer, of a record
    whose line UTF-8 cannot encode; [ensure_ascii] never changes; and the
    file always consists of whole lines of records that were appended, each
    of them encodable, in the order of their calls, after the text the file
    had at the start unless an [__enter__] truncated it. *)
Theorem writer_calls_safe
    (self : Utils.JsonlWriter) (script : list Utils.WriterCall) :
  let run := Utils.run_calls dumps self script in
  Utils.ensure_ascii run.2 = Utils.ensure_ascii self
  ∧ (∀ e, run.1 = inl e →
       (e = Utils.IO_RuntimeError ∧ Utils._fp run.2 = false)
       ∨ (e = Utils.IO_UnicodeEncodeError ∧ Utils._fp run.2 = true
          ∧ ∃ record,
              record ∈ appended script
              ∧ Utils.encodable (dumps (Utils.ensure_ascii self) record)
                = false))
  ∧ ∃ records,
      records `sublist_of` appended script
      ∧ Forall (λ record,
                  Utils.encodable (dumps (Utils.ensure_ascii self) record)
                  = true) records
      ∧ (Utils.file run.2
         = Utils.file self ++ lines_of dumps (Utils.ensure_ascii self) records
         ∨ Utils.file run.2
           = lines_of dumps (Utils.ensure_ascii self) records).
Proof.
  revert self. induction script as [|[|record|] rest IH]; intros self; simpl.
  - split_and!; [done|done|]. exists []. split_and!; [constructor|constructor|].
    left. by rewrite app_nil_r.
  - destruct (IH (Utils.__enter__ self))
      as (Hea & Herr & records & Hsub & Henc & Hf).
    split_and!; [done|done|]. exists records. split_and!; [done|done|].
    right. by destruct Hf.
  - unfold Utils.append.
    destruct (Utils._fp self) eqn:Hopen; simpl.
    + rewrite encodable_line.
      destruct (Utils.encodable (dumps (Utils.ensure_ascii self) record))
        eqn:Hrec.
      * set (self' := Utils.mkJsonlWriter _ _ _).
        destruct (IH self') as (Hea & Herr & records & Hsub & Henc & Hf).
        split_and!; [done| |].
        -- intros e He.
           destruct (Herr e He) as [?|(-> & ? & r & Hr & Hbad)]; [by left|].
           right. split_and!; [done|done|]. exists r. split; [|done].
           apply elem_of_cons. by right.
        -- simpl in Hf, Henc. destruct Hf as [Hf|Hf].
           ++ exists (record :: records).
              split_and!; [by constructor|by constructor|]. left.
              rewrite Hf. unfold lines_of. simpl. by rewrite <- !app_assoc.
           ++ exists records. split_and!; [by constructor|done|by right].
      * simpl. split_and!; [done| |].
        -- intros e [= <-]. right. split_and!; [done|done|].
           exists record. split; [|done]. apply elem_of_cons. by left.
        -- exists []. split_and!; [apply sublist_nil_l|constructor|].
           left. by rewrite app_nil_r.
    + split_and!; [done|by intros e [= <-]; left|].
      exists []. split_and!; [apply sublist_nil_l|constructor|].
      left. by rewrite app_nil_r.
  - destruct (IH (Utils.__exit__ self))
      as (Hea & Herr & records & Hsub & Henc & Hf).
    assert (Hsame : Utils.ensure_ascii (Utils.__exit__ self)
                    = Utils.ensure_ascii self
                    ∧ Utils.file (Utils.__exit__ self) = Utils.file self).
    { unfold Utils.__exit__. by destruct (Utils._fp self). }
    destruct Hsame as [Hea' Hfile]. rewrite Hea', Hfile in *.
    split_and!; [done|done|]. eauto.
Qed.

End WriterFacts.

Section EntryFacts.

Context {LM : Type}.
Variable lower : pystr → pystr.
Variable classifier : pystr → LM → option pystr * LM.
Variable extractor : pystr → pystr → LM → Extraction * LM.

Lemma row_record_content columns (row : nat → pystr)
    (items : list (string * option pystr)) record :
  Utils.row_record columns row items ∅ = inr record →
  content_of record ≠ None.
Proof.
  intros Hrec. unfold content_of, dict_get_default.
  destruct (record !! "raw_content") as [v|] eqn:Hv; [|done].
  destruct (row_record_Some _ _ _ _ _ _ _ Hrec Hv)
    as [(column & i & _ & _ & ->)|Hacc]; [done|].
  by rewrite lookup_empty in Hacc.
Qed.

Lemma read_news_file_content file column_aliases records :
  Utils.read_news_file lower file column_aliases = inr records →
  Forall (λ record, content_of record ≠ None) records
  ∧ ∃ loader df, Utils.load file loader = Some df
                 ∧ length records = length (Utils.rows df).
Proof.
  unfold Utils.read_news_file.
  destruct (Utils.file_exists file); simpl; [|done].
  destruct (Utils._select_loader _) as [|loader]; [done|].
  destruct (Utils.load file loader) as [df|] eqn:Hload; [|done].
  destruct (Utils.missing_fields _); [|done].
  intros (new & -> & Hall)%read_rows_spec. simpl. split.
  - apply Forall_forall. intros record Hin.
    apply list_elem_of_lookup in Hin as [k Hk].
    destruct (Forall2_lookup_r _ _ _ k record Hall Hk) as (row & _ & Hrec).
    by apply row_record_content in Hrec.
  - exists loader, df. split; [done|]. symmetry. by eapply Forall2_length.
Qed.

(** X16. The entry point: when reading the data file fails, [main] ends
    with that error and the world is untouched (no model call, and the output
    file is not even opened).  When it succeeds, every record has a string
    for content, so the batch never fails with the [AttributeError] of
    [None.strip()] (given model calls that return); and a count that [main]
    reports is the number of records in the output, at most the number of
    rows of the sheet. *)
Theorem main_outcome (data_file : Utils.NewsFile) (w : World LM) :
  let run := Entry.main lower classifier extractor data_file w in
  match Utils.read_news_file lower data_file None with
  | inl e => run = (inl e, w)
  | inr records =>
      run.1 ≠ inr (inl AttributeError)
      ∧ ∃ loader df,
          Utils.load data_file loader = Some df
          ∧ length records = length (Utils.rows df)
          ∧ (length (sink run.2) ≤ length (Utils.rows df))%nat
          ∧ ∀ n, run.1 = inr (inr n) → n = length (sink run.2)
  end.
Proof.
  intros run. unfold run, Entry.main.
  destruct (Utils.read_news_file lower data_file None) as [e|records] eqn:Hread;
    [done|].
  apply read_news_file_content in Hread as (Hcontent & loader & df & Hload & Hlen).
  unfold process_records, bind, writer_open.
  destruct (process_loop _ records 0 _) as [r w'] eqn:Hrun.
  apply process_loop_summary in Hrun
    as (nc & kept & ns & _ & Hsink & Hsub & Hcar & _ & _ & _ & _ & Hn & _ & Hiff).
  apply Hiff in Hcontent as [n ->].
  simpl in Hsink. simpl. split; [done|]. exists loader, df.
  rewrite Hsink. simpl.
  split_and!; [done|done| |].
  - rewrite <- Hlen, <- (Forall2_length _ _ _ Hcar). by apply sublist_length.
  - intros n' [= <-]. by rewrite (Hn n eq_refl).
Qed.

End EntryFacts.

(** ** Concrete runs of the further properties *)

Lemma sheet_fields_named :
  Forall (λ fa, ¬ unnamed Fixture.ascii_lower
                    (Utils.label_str <$> Utils.columns Fixture.sheet) fa.2)
    (Utils.aliases_or_default None).
Proof. apply (bool_decide_unpack _). vm_compute. exact I. Qed.

Lemma sheet_labels_strings :
  Forall is_string_label (Utils.columns Fixture.sheet).
Proof. repeat constructor. Qed.

Lemma sheet_labels_distinct : NoDup (Utils.columns Fixture.sheet).
Proof. apply (bool_decide_unpack _). vm_compute. exact I. Qed.

Lemma read_news_file_records_witness :
  ∃ records,
    Utils.read_news_file Fixture.ascii_lower Fixture.sheet_file None
    = inr records
    ∧ Forall2
        (fun row record =>
           (∀ field, is_Some (record !! field)
                     ↔ field ∈ map fst (Utils.aliases_or_default None))
           ∧ (∀ field v, record !! field = Some v →
                ∃ column i,
                  (field, Some column)
                  ∈ Utils._build_column_mapping Fixture.ascii_lower
                      (Utils.label_str <$> Utils.columns Fixture.sheet)
                      (Utils.aliases_or_default None)
                  ∧ Utils.columns Fixture.sheet !! i
                    = Some (Utils.StrLabel column)
                  ∧ v = Some (strip (row i))
                  ∧ trimmed (strip (row i)))
           ∧ (NoDup (map fst (Utils.aliases_or_default None)) →
              ∀ field column i,
                (field, Some column)
                ∈ Utils._build_column_mapping Fixture.ascii_lower
                    (Utils.label_str <$> Utils.columns Fixture.sheet)
                    (Utils.aliases_or_default None) →
                Utils.columns Fixture.sheet !! i
                = Some (Utils.StrLabel column) →
                record !! field = Some (Some (strip (row i)))))
        (Utils.rows Fixture.sheet) records.
Proof.
  apply (read_news_file_records Fixture.ascii_lower Fixture.sheet_file None
           Utils.read_excel Fixture.sheet).
  - vm_compute; reflexivity.
  - vm_compute; reflexivity.
  - vm_compute; reflexivity.
  - exact sheet_fields_named.
  - exact sheet_labels_strings.
  - exact sheet_labels_distinct.
Defined.

(** A header cell that holds a number: every field is named, by the text of
    a label, yet the first row lookup raises and no model is called. *)
Example yearly_run :
  Utils.read_news_file Fixture.ascii_lower Fixture.yearly_file
    (Some Fixture.yearly_aliases)
  = inl (Utils.IO_KeyError_label (py "2024")).
Proof. vm_compute. done. Qed.

(** A title with a lone surrogate stops [write_jsonl] after the first
    line. *)
Example surrogate_stops_write :
  Utils.write_jsonl Fixture.show
    [Fixture.titled (py "a"); Fixture.titled [0xD83D]; Fixture.titled (py "c")]
    (py "old") false
  = (inl Utils.IO_UnicodeEncodeError, py "a" ++ [0xA]).
Proof. vm_compute. done. Qed.

(** The sheet is read into two records; the first one is accepted and
    written with its source, the blank second one is skipped. *)
Example sheet_run :
  let run :=
    Entry.main Fixture.ascii_lower
      (Scenario.fixed_classifier (Some Scenario.policy_label))
      (Scenario.fixed_extractor Scenario.padded)
      Fixture.sheet_file Scenario.w0 in
  run.1 = inr (inr 1%nat)
  ∧ classified (calls run.2) = [Scenario.article]
  ∧ (λ out, out !! "source_institution") <$> sink run.2
    = [Some (Some Scenario.ministry)]
  ∧ (λ out, out !! "release_time") <$> sink run.2 = [Some (Some [])].
Proof. vm_compute. done. Qed.

(** A sheet without a content column is refused before any model call. *)
Example headless_run :
  Entry.main Fixture.ascii_lower
    (Scenario.fixed_classifier (Some Scenario.policy_label))
    (Scenario.fixed_extractor Scenario.padded)
    Fixture.headless_file Scenario.w0
  = (inl (Utils.IO_KeyError ["release_time"; "raw_content"]%string),
     Scenario.w0).
Proof. vm_compute. done. Qed.

(** Appending after [__exit__] raises and leaves the two lines in place. *)
Example use_after_exit :
  Utils.run_calls Fixture.show (Utils.mkJsonlWriter false false (py "old"))
    [Utils.Enter; Utils.Append (Fixture.titled (py "a"));
     Utils.Append (Fixture.titled (py "b")); Utils.Exit;
     Utils.Append (Fixture.titled (py "c"))]
  = (inl Utils.IO_RuntimeError,
     Utils.mkJsonlWriter false false (py "a" ++ [0xA] ++ py "b" ++ [0xA])).
Proof. vm_compute. done. Qed.

(** A record whose content is [None] aborts the batch after the record
    before it has been written. *)
Example none_content_aborts :
  let run :=
    process_records
      (forward (Scenario.fixed_classifier (Some Scenario.policy_label))
         (Scenario.fixed_extractor Scenario.padded))
      [Scenario.record_A; Fixture.record_none; Scenario.record_A]
      Scenario.w0 in
  run.1 = inl AttributeError ∧ length (sink run.2) = 1%nat.
Proof. vm_compute. done. Qed.

(** ** Header names *)

Lemma lstrip_app_space pad s :
  Forall (λ c, is_space c = true) pad → lstrip (pad ++ s) = lstrip s.
Proof. induction 1 as [|c pad Hc _ IH]; simpl; [done|by rewrite Hc]. Qed.

Lemma lstrip_app_blank s t : lstrip s = [] → lstrip (s ++ t) = lstrip t.
Proof.
  induction s as [|c s IH]; simpl; [done|].
  destruct (is_space c); [done|discriminate].
Qed.

Lemma lstrip_app_visible s t : lstrip s ≠ [] → lstrip (s ++ t) = lstrip s ++ t.
Proof.
  induction s as [|c s IH]; simpl; [done|].
  destruct (is_space c); [done|by intros _].
Qed.

Lemma rstrip_app_space s pad :
  Forall (λ c, is_space c = true) pad → rstrip (s ++ pad) = rstrip s.
Proof.
  intros Hpad. unfold rstrip. rewrite reverse_app.
  by rewrite lstrip_app_space by by apply Forall_reverse.
Qed.

Lemma strip_padded pad1 s pad2 :
  Forall (λ c, is_space c = true) pad1 →
  Forall (λ c, is_space c = true) pad2 →
  strip (pad1 ++ s ++ pad2) = strip s.
Proof.
  intros H1 H2. unfold strip. rewrite lstrip_app_space by done.
  destruct (lstrip s) as [|c s'] eqn:Hs.
  - rewrite lstrip_app_blank by done.
    rewrite <- (app_nil_r pad2), lstrip_app_space by done. done.
  - rewrite lstrip_app_visible by by rewrite Hs.
    rewrite Hs. by apply rstrip_app_space.
Qed.

Lemma replace_colon_space pad :
  Forall (λ c, is_space c = true) pad → Utils.replace_colon pad = pad.
Proof.
  induction 1 as [|c pad Hc _ IH]; simpl; [done|]. rewrite IH. f_equal.
  destruct (N.eqb_spec c 0xFF1A) as [->|]; [discriminate Hc|done].
Qed.

Lemma replace_colon_idempotent name :
  Utils.replace_colon (Utils.replace_colon name) = Utils.replace_colon name.
Proof.
  induction name as [|c name IH]; simpl; [done|]. rewrite IH. f_equal.
  destruct (N.eqb_spec c 0xFF1A) as [->|Hc]; [done|].
  by destruct (N.eqb_spec c 0xFF1A).
Qed.

Lemma replace_colon_same_width a b :
  same_up_to_colon_width a b → Utils.replace_colon a = Utils.replace_colon b.
Proof.
  induction 1 as [|x y a b Hxy _ IH]; simpl; [done|]. rewrite IH. f_equal.
  by destruct Hxy as [->|[[-> ->]|[-> ->]]].
Qed.

(** X17. Header names are compared up to padding and colon width: for any
    [str.lower], whitespace around a name does not change its normalized
    form, and two names that differ only in writing a colon full-width or
    ASCII have the same normalized form. *)
Theorem normalize_tolerant
    (lower : pystr → pystr) (pad1 name pad2 : pystr) :
  Forall (λ c, is_space c = true) pad1 →
  Forall (λ c, is_space c = true) pad2 →
  Utils._normalize lower (pad1 ++ name ++ pad2) = Utils._normalize lower name
  ∧ (∀ name', same_up_to_colon_width name name' →
       Utils._normalize lower name' = Utils._normalize lower name
       ∧ Utils._normalize lower (pad1 ++ name' ++ pad2)
         = Utils._normalize lower name).
Proof.
  intros H1 H2.
  assert (Hpad : ∀ n, Utils._normalize lower (pad1 ++ n ++ pad2)
                      = Utils._normalize lower n).
  { intros n. unfold Utils._normalize.
    unfold Utils.replace_colon at 1. rewrite !map_app.
    fold (Utils.replace_colon pad1). fold (Utils.replace_colon pad2).
    fold (Utils.replace_colon n).
    rewrite (replace_colon_space pad1 H1), (replace_colon_space pad2 H2).
    by rewrite strip_padded. }
  split; [apply Hpad|].
  intros name' Hsame.
  assert (Hcolon : Utils._normalize lower name' = Utils._normalize lower name).
  { unfold Utils._normalize. by rewrite (replace_colon_same_width _ _ Hsame). }
  split; [done|]. by rewrite Hpad.
Qed.

Lemma normalize_tolerant_witness :
  Utils._normalize Fixture.ascii_lower
    ([0x20] ++ py "发布时间：" ++ [0x3000; 0xA])
  = Utils._normalize Fixture.ascii_lower (py "发布时间：")
  ∧ Utils._normalize Fixture.ascii_lower (py "发布时间:")
    = Utils._normalize Fixture.ascii_lower (py "发布时间：").
Proof.
  destruct (normalize_tolerant Fixture.ascii_lower [0x20] (py "发布时间：")
              [0x3000; 0xA]) as [Hpad Hcolon]; [repeat constructor..|].
  split; [exact Hpad|].
  apply (Hcolon (py "发布时间:")).
  unfold same_up_to_colon_width. vm_compute.
  repeat (constructor; [by (left + (right; left))|]). constructor.
Defined.
